(** * sygma-call: the generic-message transfer script, [transfer.ts]

    A shallow embedding of
    [evm-to-evm-generic-mesage-passing/src/transfer.ts] and the properties
    of its two polling loops: the destination-value watcher
    [waitUntilBridged] and the status poller armed with [setInterval]
    at the end of [genericMessage].

    The script is single-threaded JavaScript.  Every [await] is a
    sequencing point, so each [async] function is embedded as a computation
    in a state monad that threads the observable state of the process (what
    was printed, which remote calls were made, the elapsed timer time, the
    armed interval) and that can finish normally, throw, or leave through
    [process.exit].  The remote parties (the destination contract, the
    bridging SDK, the wallet, the status API) are given by a [World] of
    oracles that say what each call returns. *)

From Stdlib Require Import ZArith List Lia Bool.
From stdpp Require Import base strings list gmap.
Import ListNotations.

Local Open Scope string_scope.
Local Open Scope list_scope.
Local Open Scope Z_scope.

(** ** Values *)

(** ethers' [BigNumber]: an arbitrary-precision integer.  The contract's
    [number()] getter returns a [uint256], see [uint256]. *)
Definition BigNumber : Type := Z.

Definition uint256 (v : BigNumber) : Prop := 0 <= v < 2 ^ 256.

(** [a.eq(b)]: equality of the two integers, whatever their
    representation. *)
Definition BigNumber_eq (a b : BigNumber) : bool := Z.eqb a b.

(** What a JavaScript computation can throw here. *)
Inductive exn : Type :=
| Error (message : string)
    (** [new Error(message)], and the rejection of a remote call *)
| NumericFault (fault operation : string)
    (** ethers' [NUMERIC_FAULT] error *).

(** [Number.MAX_SAFE_INTEGER + 1]: a [number] holds every integer of
    absolute value below it. *)
Definition SAFE_LIMIT : Z := 2 ^ 53.

(** [v.toNumber()] of ethers v5: the integer as a JavaScript [number]; it
    throws the [overflow] numeric fault when the value does not fit in 53
    bits. *)
Definition toNumber (v : BigNumber) : exn + Z :=
  if Z.abs v <? SAFE_LIMIT then inr v
  else inl (NumericFault "overflow" "toNumber").

(** A record of the status API.  The script reads its [status] only. *)
Record TransferStatusResponse : Type := { status : string }.

(** ** What the process does *)

(** The descriptor built by [createGenericMessageTransfer]. *)
Record Transfer : Type := {
  sender : string;
  destinationChainId : Z;
  resourceId : string;
  executeContractAddress : string;
  executeFunctionSignature : string;
  executionData : string;
  maxFee : string
}.

(** An argument of [console.log]; a template literal is given by its text
    and the value it splices in. *)
Inductive arg : Type :=
| Str (s : string)            (** a string *)
| Big (v : BigNumber)         (** a [BigNumber], printed in decimal *)
| DateOf (n : Z)              (** [new Date(n).toString()] *)
| Obj (e : exn)               (** a caught error *).

Inductive event : Type :=
| EvLog (args : list arg)         (** [console.log(args)] *)
| EvNewProvider (url : string)    (** [new providers.JsonRpcProvider(url)] *)
| EvSleep (ms : Z)                (** [sleep(ms)] *)
| EvCallNumber (k : nat)          (** the [k]-th call of [counterContract.number()] *)
| EvSdkInit                       (** [messageTransfer.init] *)
| EvGetFee (transfer : Transfer)  (** [messageTransfer.getFee(transfer)] *)
| EvBuildTransaction              (** [messageTransfer.buildTransferTransaction] *)
| EvSendTransaction               (** [wallet.sendTransaction] *)
| EvSetInterval (ms : Z)          (** [setInterval(callback, ms)] *)
| EvGetStatus (k : nat) (txHash : string)
                                  (** the [k]-th call of [getTransferStatusData] *)
| EvClearInterval                 (** [clearInterval(id)] *)
| EvExit (code : Z)               (** [process.exit(code)] *).

(** The interval armed by [setInterval]: its period and the transaction hash
    its callback closes over. *)
Record Timer : Type := { period : Z; txHash : string }.

Record State : Type := {
  trace : list event;       (** what happened so far, oldest first *)
  reads : nat;              (** calls of [counterContract.number()] made *)
  queries : nat;            (** calls of [getTransferStatusData] made *)
  clock : Z;                (** milliseconds spent in timers *)
  interval : option Timer   (** the armed interval, if any *)
}.

Definition initial : State :=
  {| trace := []; reads := 0; queries := 0; clock := 0; interval := None |}.

(** The remote parties. *)
Record World : Type := {
  env : gmap string string;
    (** [process.env] once [dotenv.config()] has run *)
  wallet_address : string -> exn + string;
    (** [new Wallet(key, provider).address] *)
  number_call : nat -> exn + BigNumber;
    (** what the [k]-th call of [counterContract.number()] resolves to *)
  sdk_init : exn + unit;
    (** [messageTransfer.init(sourceProvider, Environment.TESTNET)] *)
  sdk_fee : exn + Z;
    (** the quote of [messageTransfer.getFee(transfer)] *)
  sdk_transaction : Z -> exn + string;
    (** [messageTransfer.buildTransferTransaction(transfer, fee)] *)
  send_transaction : string -> exn + string;
    (** the hash of the submitted transaction *)
  status_call : nat -> exn + list TransferStatusResponse
    (** what the [k]-th call of [getTransferStatusData] resolves to *)
}.

(** ** The monad *)

Inductive res (A : Type) : Type :=
| Ret (a : A)          (** normal completion *)
| Throw (e : exn)      (** an exception, or a rejected promise *)
| Exit (code : Z)      (** [process.exit(code)]: nothing runs afterwards *)
| OutOfFuel            (** the loop budget of the model is used up *).
Arguments Ret {A} a.
Arguments Throw {A} e.
Arguments Exit {A} code.
Arguments OutOfFuel {A}.

Definition M (A : Type) : Type := State -> res A * State.

Definition ret {A} (a : A) : M A := fun s => (Ret a, s).

Definition bind {A B} (m : M A) (k : A -> M B) : M B :=
  fun s =>
    match m s with
    | (Ret a, s') => k a s'
    | (Throw e, s') => (Throw e, s')
    | (Exit c, s') => (Exit c, s')
    | (OutOfFuel, s') => (OutOfFuel, s')
    end.

Definition throw {A} (e : exn) : M A := fun s => (Throw e, s).

(** [m.catch(handler)]: only a thrown exception reaches the handler. *)
Definition catch {A} (m : M A) (handler : exn -> M A) : M A :=
  fun s =>
    match m s with
    | (Throw e, s') => handler e s'
    | other => other
    end.

(** The settled value of a remote call. *)
Definition settle {A} (r : exn + A) : M A :=
  match r with
  | inl e => throw e
  | inr a => ret a
  end.

Declare Scope js_scope.
Delimit Scope js_scope with js.
Notation "x <- m ;; k" := (bind m (fun x => k))
  (at level 100, m at next level, right associativity) : js_scope.
Notation "m ;; k" := (bind m (fun _ => k))
  (at level 100, right associativity) : js_scope.
Local Open Scope js_scope.

Definition emit (ev : event) : M unit :=
  fun s =>
    (Ret tt, {| trace := trace s ++ [ev]; reads := reads s;
                queries := queries s; clock := clock s;
                interval := interval s |}).

Definition console_log (args : list arg) : M unit := emit (EvLog args).

(** [sleep(ms)]: the timer time goes by. *)
Definition sleep (ms : Z) : M unit :=
  fun s =>
    (Ret tt, {| trace := trace s ++ [EvSleep ms]; reads := reads s;
                queries := queries s; clock := clock s + ms;
                interval := interval s |}).

(** [counterContract.number()]: one [eth_call] to the destination chain. *)
Definition counterContract_number (w : World) : M BigNumber :=
  fun s =>
    let k := reads s in
    settle (number_call w k)
      {| trace := trace s ++ [EvCallNumber k]; reads := S k;
         queries := queries s; clock := clock s;
         interval := interval s |}.

Definition fetchAfterValue (w : World) : M BigNumber :=
  counterContract_number w.

(** ** The destination-value watcher *)

(** The [for (;;)] loop of [waitUntilBridged], entered with the counter at
    [i].  [fuel] bounds the turns the model follows; the loop itself has no
    such bound. *)
Fixpoint waitLoop (fuel : nat) (w : World) (valueBefore : BigNumber)
    (intervalDuration attempts i : Z) : M unit :=
  match fuel with
  | O => fun s => (OutOfFuel, s)
  | S fuel' =>
      sleep intervalDuration ;;
      contractValueAfter <- fetchAfterValue w ;;
      if negb (BigNumber_eq contractValueAfter valueBefore) then
        console_log [Str "Transaction successfully bridged."] ;;
        n <- settle (toNumber contractValueAfter) ;;
        console_log [Str "Value after update: "; DateOf n]
      else
        let i := i + 1 in
        if i >? attempts then
          console_log [Str "transaction is taking too much time to bridge!"]
        else
          waitLoop fuel' w valueBefore intervalDuration attempts i
  end.

(** [waitUntilBridged(valueBefore, intervalDuration = 15000, attempts = 8)];
    an argument left out is [None]. *)
Definition waitUntilBridged (fuel : nat) (w : World) (valueBefore : BigNumber)
    (intervalDuration attempts : option Z) : M unit :=
  let intervalDuration := default 15000 intervalDuration in
  let attempts := default 8 attempts in
  let i := 0 in
  waitLoop fuel w valueBefore intervalDuration attempts i.

(** ** The status poller *)

(** [getStatus(txHash)]: one query of the status API. *)
Definition getStatus (w : World) (hash : string)
    : M (list TransferStatusResponse) :=
  fun s =>
    let k := queries s in
    settle (status_call w k)
      {| trace := trace s ++ [EvGetStatus k hash]; reads := reads s;
         queries := S k; clock := clock s; interval := interval s |}.

Definition setInterval (ms : Z) (hash : string) : M unit :=
  fun s =>
    (Ret tt, {| trace := trace s ++ [EvSetInterval ms]; reads := reads s;
                queries := queries s; clock := clock s;
                interval := Some {| period := ms; txHash := hash |} |}).

Definition clearInterval : M unit :=
  fun s =>
    (Ret tt, {| trace := trace s ++ [EvClearInterval]; reads := reads s;
                queries := queries s; clock := clock s;
                interval := None |}).

Definition process_exit {A} (code : Z) : M A :=
  fun s =>
    (Exit code, {| trace := trace s ++ [EvExit code]; reads := reads s;
                   queries := queries s; clock := clock s;
                   interval := interval s |}).

(** The callback given to [setInterval]:
    [getStatus(response.hash).then(...).catch(...)]. *)
Definition statusCallback (w : World) (hash : string) : M unit :=
  catch
    (data <- getStatus w hash ;;
     match data !! 0%nat with
     | Some first =>
         console_log [Str "Status of the transfer"; Str (status first)] ;;
         if String.eqb (status first) "executed" then
           clearInterval ;;
           process_exit 0
         else ret tt
     | None =>
         console_log [Str "Waiting for the TX to be indexed"]
     end)
    (fun e => console_log [Str "error:"; Obj e]).

(** The timer phase of the event loop: while the interval is armed, its
    period goes by and the callback runs.  [ticks] is the number of firings
    followed.  Each query settles before the next firing. *)
Fixpoint eventLoop (ticks : nat) (w : World) : M unit :=
  match ticks with
  | O => ret tt
  | S ticks' =>
      fun s =>
        match interval s with
        | None => (Ret tt, s)
        | Some t =>
            (statusCallback w (txHash t) ;;
             eventLoop ticks' w)
              {| trace := trace s; reads := reads s; queries := queries s;
                 clock := clock s + period t; interval := interval s |}
        end
  end.

(** ** The run *)

Definition DESTINATION_CHAIN_ID : Z := 17000.
Definition RESOURCE_ID : string :=
  "0x0000000000000000000000000000000000000000000000000000000000000500".
Definition EXECUTE_CONTRACT_ADDRESS : string :=
  "0x303e46f108ed47bf5a489cf62926fd3d8ddcc72a".
Definition EXECUTE_FUNCTION_SIGNATURE : string := "0xd09de08a".
Definition MAX_FEE : string := "3000000".

(** A remote call: it is made, then it settles. *)
Definition remote {A} (ev : event) (r : exn + A) : M A :=
  emit ev ;; settle r.

Definition genericMessage (fuel : nat) (w : World) (walletAddress : string)
    : M unit :=
  console_log [Str "Sending a generic message transfer..."] ;;
  contractValueBefore <- counterContract_number w ;;
  console_log [Str "Value before update: "; Big contractValueBefore] ;;
  remote EvSdkInit (sdk_init w) ;;
  let EXECUTION_DATA := "" in
  let transfer :=
    {| sender := walletAddress;
       destinationChainId := DESTINATION_CHAIN_ID;
       resourceId := RESOURCE_ID;
       executeContractAddress := EXECUTE_CONTRACT_ADDRESS;
       executeFunctionSignature := EXECUTE_FUNCTION_SIGNATURE;
       executionData := EXECUTION_DATA;
       maxFee := MAX_FEE |} in
  fee <- remote (EvGetFee transfer) (sdk_fee w) ;;
  console_log [Str "Fee for the transfer: "; Big fee] ;;
  transferTx <- remote EvBuildTransaction (sdk_transaction w fee) ;;
  hash <- remote EvSendTransaction (send_transaction w transferTx) ;;
  console_log [Str "Sent transfer with hash: "; Str hash] ;;
  console_log [Str "Waiting for relayers to bridge transaction..."] ;;
  waitUntilBridged fuel w contractValueBefore None None ;;
  setInterval 5000 hash ;;
  finalValue <- fetchAfterValue w ;;
  console_log [Str "Final value: "; Big finalValue].

(** JavaScript's truth value of [process.env.NAME]: a variable that is not
    set is [undefined], and the empty string is falsy too. *)
Definition truthy (v : option string) : bool :=
  match v with
  | Some s => negb (String.eqb s "")
  | None => false
  end.

(** [process.env.NAME || fallback]. *)
Definition or_else (v : option string) (fallback : string) : string :=
  if truthy v then default fallback v else fallback.

(** The statements of the module before the call of [genericMessage]. *)
Definition moduleInit (w : World) : M string :=
  let privateKey := env w !! "PRIVATE_KEY" in
  (if negb (truthy privateKey) then
     throw (Error "Missing environment variable: PRIVATE_KEY")
   else ret tt) ;;
  let SEPOLIA_RPC_URL :=
    or_else (env w !! "BASE_SEPOLIA_RPC_URL") "https://sepolia.drpc.org" in
  let HOLESKY_RPC_URL :=
    or_else (env w !! "HOLESKY_RPC_URL") "https://holesky.drpc.org" in
  emit (EvNewProvider HOLESKY_RPC_URL) ;;
  emit (EvNewProvider SEPOLIA_RPC_URL) ;;
  console_log [Str "Connected to contract: "; Str EXECUTE_CONTRACT_ADDRESS] ;;
  walletAddress <- settle (wallet_address w (default "" privateKey)) ;;
  console_log [Str "Fetching contract value..."] ;;
  ret walletAddress.

(** How a run stands after the timer firings that were followed. *)
Inductive outcome : Type :=
| ModuleThrew (e : exn)     (** the module body threw while loading *)
| Rejected (e : exn)        (** the promise of [genericMessage()] rejected *)
| Exited (code : Z)         (** [process.exit(code)] was called *)
| Running                   (** the interval is still armed *)
| Idle                      (** nothing is armed any more *)
| Unfinished                (** the loop budget of the model is used up *).

(** The whole script: the module body, [genericMessage()], then the
    firings of the interval.  The final read of [genericMessage] settles
    before the first firing, five seconds after the interval is armed.
    When the promise of [genericMessage()] rejects, [.finally(() => {})]
    passes the rejection on and the run is followed no further. *)
Definition run (fuel ticks : nat) (w : World) : outcome * State :=
  match moduleInit w initial with
  | (Ret walletAddress, s0) =>
      match genericMessage fuel w walletAddress s0 with
      | (Ret _, s1) =>
          match eventLoop ticks w s1 with
          | (Exit c, s2) => (Exited c, s2)
          | (Throw e, s2) => (Rejected e, s2)
          | (OutOfFuel, s2) => (Unfinished, s2)
          | (Ret _, s2) =>
              (match interval s2 with Some _ => Running | None => Idle end, s2)
          end
      | (Throw e, s1) => (Rejected e, s1)
      | (Exit c, s1) => (Exited c, s1)
      | (OutOfFuel, s1) => (Unfinished, s1)
      end
  | (Throw e, s0) => (ModuleThrew e, s0)
  | (Exit c, s0) => (Exited c, s0)
  | (OutOfFuel, s0) => (Unfinished, s0)
  end.

(** ** Vocabulary of the statements *)

(** The state once the watcher has slept and read once more. *)
Definition polled (ms : Z) (s : State) : State :=
  {| trace := (trace s ++ [EvSleep ms]) ++ [EvCallNumber (reads s)];
     reads := S (reads s); queries := queries s; clock := clock s + ms;
     interval := interval s |}.

(** The next [n] reads from the state [s] on all return [b]. *)
Definition unchanged (w : World) (b : BigNumber) (s : State) (n : nat) : Prop :=
  forall j, (j < n)%nat -> number_call w (reads s + j) = inr b.

(** The events of [n] turns of the watcher that start with read [k]. *)
Definition polls (ms : Z) (k n : nat) : list event :=
  flat_map (fun j => [EvSleep ms; EvCallNumber j]) (seq k n).

(** The three lines the watcher prints. *)
Definition LOG_BRIDGED : event :=
  EvLog [Str "Transaction successfully bridged."].
Definition LOG_VALUE_AFTER (n : Z) : event :=
  EvLog [Str "Value after update: "; DateOf n].
Definition LOG_TOO_MUCH_TIME : event :=
  EvLog [Str "transaction is taking too much time to bridge!"].

(** Whether a reply of the status API ends the polling: its first record
    says [executed]. *)
Definition terminal (reply : exn + list TransferStatusResponse) : bool :=
  match reply with
  | inr (first :: _) => String.eqb (status first) "executed"
  | _ => false
  end.

(** The events of the firing of the interval that makes query [k]. *)
Definition tickEvents (hash : string) (k : nat)
    (reply : exn + list TransferStatusResponse) : list event :=
  EvGetStatus k hash ::
  match reply with
  | inl e => [EvLog [Str "error:"; Obj e]]
  | inr [] => [EvLog [Str "Waiting for the TX to be indexed"]]
  | inr (first :: _) =>
      EvLog [Str "Status of the transfer"; Str (status first)] ::
      (if String.eqb (status first) "executed"
       then [EvClearInterval; EvExit 0] else [])
  end.

(** The state after the firing that makes the next query. *)
Definition ticked (w : World) (t : Timer) (s : State) : State :=
  let reply := status_call w (queries s) in
  {| trace := trace s ++ tickEvents (txHash t) (queries s) reply;
     reads := reads s;
     queries := S (queries s);
     clock := clock s + period t;
     interval := if terminal reply then None else Some t |}.

(** The events of [n] firings that start with query [k]. *)
Definition firings (w : World) (hash : string) (k n : nat) : list event :=
  flat_map (fun j => tickEvents hash j (status_call w j)) (seq k n).

(** None of the next [n] replies from the state [s] on is terminal. *)
Definition pending (w : World) (s : State) (n : nat) : Prop :=
  forall j, (j < n)%nat -> terminal (status_call w (queries s + j)) = false.

(** *** The order of the phases of a run *)

Definition is_send (ev : event) : bool :=
  match ev with
  | EvSendTransaction => true
  | _ => false
  end.

(** The events of the watcher: its sleeps and the lines it prints. *)
Definition is_watcher (ev : event) : bool :=
  match ev with
  | EvSleep _ => true
  | EvLog [Str line] =>
      String.eqb line "Transaction successfully bridged."
      || String.eqb line "transaction is taking too much time to bridge!"
  | EvLog [Str line; DateOf _] => String.eqb line "Value after update: "
  | _ => false
  end.

(** The events of the status poller: arming the interval, its queries,
    and how it ends. *)
Definition is_poller (ev : event) : bool :=
  match ev with
  | EvSetInterval _ | EvGetStatus _ _ | EvClearInterval | EvExit _ => true
  | _ => false
  end.

(** Some event of the poller comes before some event of the watcher: the
    poller is at work while the watcher still is. *)
Fixpoint overlap (tr : list event) : bool :=
  match tr with
  | [] => false
  | ev :: tr' => (is_poller ev && existsb is_watcher tr') || overlap tr'
  end.

(** No event of the watcher or of the poller comes before
    [wallet.sendTransaction]. *)
Fixpoint submitted_first (tr : list event) : bool :=
  match tr with
  | [] => true
  | ev :: tr' =>
      if is_send ev then true
      else negb (is_watcher ev || is_poller ev) && submitted_first tr'
  end.

(** The phases a run goes through, in this order. *)
Inductive phase : Type := Submitting | Watching | Polling.

Definition advance (p : phase) (ev : event) : option phase :=
  match p with
  | Submitting =>
      if is_watcher ev || is_poller ev then None
      else Some (if is_send ev then Watching else Submitting)
  | Watching => Some (if is_poller ev then Polling else Watching)
  | Polling => if is_watcher ev then None else Some Polling
  end.

(** The phase in which the events [tr] leave a run that was in phase [p],
    if they come in the order of the phases. *)
Fixpoint follows (p : phase) (tr : list event) : option phase :=
  match tr with
  | [] => Some p
  | ev :: tr' =>
      match advance p ev with
      | Some q => follows q tr'
      | None => None
      end
  end.

(** From [s] to [s'] the run printed and called in the order of the
    phases, from phase [p] to phase [q]. *)
Definition accepted (p : phase) (s s' : State) (q : phase) : Prop :=
  exists evs, trace s' = trace s ++ evs /\ follows p evs = Some q.

(** The two halves of [genericMessage] around the call of
    [waitUntilBridged]. *)
Definition submit (w : World) (walletAddress : string)
    : M (BigNumber * string) :=
  console_log [Str "Sending a generic message transfer..."] ;;
  contractValueBefore <- counterContract_number w ;;
  console_log [Str "Value before update: "; Big contractValueBefore] ;;
  remote EvSdkInit (sdk_init w) ;;
  let transfer :=
    {| sender := walletAddress;
       destinationChainId := DESTINATION_CHAIN_ID;
       resourceId := RESOURCE_ID;
       executeContractAddress := EXECUTE_CONTRACT_ADDRESS;
       executeFunctionSignature := EXECUTE_FUNCTION_SIGNATURE;
       executionData := "";
       maxFee := MAX_FEE |} in
  fee <- remote (EvGetFee transfer) (sdk_fee w) ;;
  console_log [Str "Fee for the transfer: "; Big fee] ;;
  transferTx <- remote EvBuildTransaction (sdk_transaction w fee) ;;
  hash <- remote EvSendTransaction (send_transaction w transferTx) ;;
  console_log [Str "Sent transfer with hash: "; Str hash] ;;
  console_log [Str "Waiting for relayers to bridge transaction..."] ;;
  ret (contractValueBefore, hash).

Definition startPolling (w : World) (hash : string) : M unit :=
  setInterval 5000 hash ;;
  finalValue <- fetchAfterValue w ;;
  console_log [Str "Final value: "; Big finalValue].

(** *** Worlds to run the script in *)

(** A world whose environment holds a key and in which every call of the SDK
    and of the wallet succeeds; the counter and the status API answer as
    [numbers] and [replies] say. *)
Definition exampleWorld (numbers : nat -> exn + BigNumber)
    (replies : nat -> exn + list TransferStatusResponse) : World :=
  {| env := {[ "PRIVATE_KEY" := "0x0123" ]};
     wallet_address := fun _ => inr "0x00000000000000000000000000000000000000aa";
     number_call := numbers;
     sdk_init := inr tt;
     sdk_fee := inr 1000;
     sdk_transaction := fun _ => inr "0xf86b";
     send_transaction := fun _ => inr "0x251be7fc";
     status_call := replies |}.

(** The status API has no record for four queries, then says [pending],
    then [executed]. *)
Definition indexedLate (k : nat) : exn + list TransferStatusResponse :=
  inr (if (k <? 4)%nat then []
       else if (k <? 5)%nat then [{| status := "pending" |}]
       else [{| status := "executed" |}]).

(** The counter is 104 before the transfer and for the first two reads of
    the watcher, and 105 from its third read on. *)
Definition scenarioA : World :=
  exampleWorld (fun k => inr (if (k <? 3)%nat then 104 else 105)) indexedLate.

(** The counter stays at 104. *)
Definition scenarioB : World :=
  exampleWorld (fun _ => inr 104) indexedLate.

(** The destination chain fails to answer the second read of the watcher. *)
Definition scenarioReadFails : World :=
  exampleWorld
    (fun k => if (k <? 2)%nat then inr 104 else inl (Error "timeout"))
    indexedLate.

(** The counter jumps to [2 ^ 53]. *)
Definition scenarioOverflow : World :=
  exampleWorld (fun k => inr (if (k <? 1)%nat then 104 else 2 ^ 53))
    indexedLate.

(** The status API fails three times. *)
Definition scenarioApiDown : World :=
  exampleWorld (fun k => inr (if (k <? 1)%nat then 104 else 105))
    (fun k => if (k <? 3)%nat then inl (Error "503") else indexedLate k).

(** The transfer ends in the SDK's [failed] state. *)
Definition scenarioFailed : World :=
  exampleWorld (fun k => inr (if (k <? 1)%nat then 104 else 105))
    (fun _ => inr [{| status := "failed" |}]).

(** An environment without [PRIVATE_KEY]. *)
Definition scenarioNoKey : World :=
  {| env := {[ "HOLESKY_RPC_URL" := "https://holesky.drpc.org" ]};
     wallet_address := fun _ => inr "0x00000000000000000000000000000000000000aa";
     number_call := fun _ => inr 104;
     sdk_init := inr tt;
     sdk_fee := inr 1000;
     sdk_transaction := fun _ => inr "0xf86b";
     send_transaction := fun _ => inr "0x251be7fc";
     status_call := indexedLate |}.

(** The status API knows the transfer as [executed] from the first query. *)
Definition scenarioExecuted : World :=
  exampleWorld (fun k => inr (if (k <? 1)%nat then 104 else 105))
    (fun _ => inr [{| status := "executed" |}]).

(** The state in which [genericMessage] calls the watcher, as far as the
    watcher can tell: the baseline has been read. *)
Definition afterBaseline : State :=
  {| trace := []; reads := 1; queries := 0; clock := 0; interval := None |}.

(** [PRIVATE_KEY] is set, to nothing. *)
Definition scenarioEmptyKey : World :=
  {| env := {[ "PRIVATE_KEY" := "" ]};
     wallet_address := fun _ => inr "0x00000000000000000000000000000000000000aa";
     number_call := fun _ => inr 104;
     sdk_init := inr tt;
     sdk_fee := inr 1000;
     sdk_transaction := fun _ => inr "0xf86b";
     send_transaction := fun _ => inr "0x251be7fc";
     status_call := indexedLate |}.

(** The key is not one a wallet can be made of. *)
Definition scenarioBadKey : World :=
  {| env := {[ "PRIVATE_KEY" := "not-a-key" ]};
     wallet_address := fun _ => inl (Error "invalid private key");
     number_call := fun _ => inr 104;
     sdk_init := inr tt;
     sdk_fee := inr 1000;
     sdk_transaction := fun _ => inr "0xf86b";
     send_transaction := fun _ => inr "0x251be7fc";
     status_call := indexedLate |}.

(** The SDK cannot quote a fee. *)
Definition scenarioQuoteFails : World :=
  {| env := {[ "PRIVATE_KEY" := "0x0123" ]};
     wallet_address := fun _ => inr "0x00000000000000000000000000000000000000aa";
     number_call := fun _ => inr 104;
     sdk_init := inr tt;
     sdk_fee := inl (Error "no fee handler");
     sdk_transaction := fun _ => inr "0xf86b";
     send_transaction := fun _ => inr "0x251be7fc";
     status_call := indexedLate |}.

(** The source chain refuses the transaction. *)
Definition scenarioSendFails : World :=
  {| env := {[ "PRIVATE_KEY" := "0x0123" ]};
     wallet_address := fun _ => inr "0x00000000000000000000000000000000000000aa";
     number_call := fun _ => inr 104;
     sdk_init := inr tt;
     sdk_fee := inr 1000;
     sdk_transaction := fun _ => inr "0xf86b";
     send_transaction := fun _ => inl (Error "insufficient funds");
     status_call := indexedLate |}.

(** An armed interval, as [genericMessage] leaves it. *)
Definition armed : State :=
  {| trace := []; reads := 0; queries := 0; clock := 0;
     interval := Some {| period := 5000; txHash := "0x251be7fc" |} |}.

(** *** The anatomy of a run *)

(** An event that belongs neither to the watcher nor to the poller. *)
Definition quiet (ev : event) : bool := negb (is_watcher ev || is_poller ev).

(** How the watcher ended: cut short (a read was rejected, or the budget of
    the model ran out), rejected by [toNumber] after the success line,
    timed out, or returned after a change, printing the date of [n]. *)
Inductive ending : Type :=
| Cut
| Overflowed
| TimedOut
| Bridged (n : Z).

(** The lines the watcher prints at its end. *)
Definition ending_lines (e : ending) : list event :=
  match e with
  | Cut => []
  | Overflowed => [LOG_BRIDGED]
  | TimedOut => [LOG_TOO_MUCH_TIME]
  | Bridged n => [LOG_BRIDGED; LOG_VALUE_AFTER n]
  end.

(** The endings with which [waitUntilBridged] returns normally. *)
Definition returned (e : ending) : bool :=
  match e with
  | TimedOut | Bridged _ => true
  | Cut | Overflowed => false
  end.

(** The descriptor [genericMessage] builds for the sender. *)
Definition theTransfer (walletAddress : string) : Transfer :=
  {| sender := walletAddress;
     destinationChainId := DESTINATION_CHAIN_ID;
     resourceId := RESOURCE_ID;
     executeContractAddress := EXECUTE_CONTRACT_ADDRESS;
     executeFunctionSignature := EXECUTE_FUNCTION_SIGNATURE;
     executionData := "";
     maxFee := MAX_FEE |}.

(** The events of [genericMessage] up to the call of the watcher, when every
    call succeeds: the baseline [b] is read [k], the fee is [fee], the
    transaction is sent and has the hash [hash]. *)
Definition submission (walletAddress : string) (k : nat) (b : BigNumber)
    (fee : Z) (hash : string) : list event :=
  [EvLog [Str "Sending a generic message transfer..."];
   EvCallNumber k;
   EvLog [Str "Value before update: "; Big b];
   EvSdkInit;
   EvGetFee (theTransfer walletAddress);
   EvLog [Str "Fee for the transfer: "; Big fee];
   EvBuildTransaction;
   EvSendTransaction;
   EvLog [Str "Sent transfer with hash: "; Str hash];
   EvLog [Str "Waiting for relayers to bridge transaction..."]].

(** The state in which the watcher is called after that. *)
Definition submitted (walletAddress : string) (b : BigNumber) (fee : Z)
    (hash : string) (s : State) : State :=
  {| trace := trace s ++ submission walletAddress (reads s) b fee hash;
     reads := S (reads s); queries := queries s; clock := clock s;
     interval := interval s |}.

(** The events of the module body when it goes through. *)
Definition loaded (w : World) : list event :=
  [EvNewProvider
     (or_else (env w !! "HOLESKY_RPC_URL") "https://holesky.drpc.org");
   EvNewProvider
     (or_else (env w !! "BASE_SEPOLIA_RPC_URL") "https://sepolia.drpc.org");
   EvLog [Str "Connected to contract: "; Str EXECUTE_CONTRACT_ADDRESS]].

(** The state after events that only print or create. *)
Definition after (evs : list event) (s : State) : State :=
  {| trace := trace s ++ evs; reads := reads s; queries := queries s;
     clock := clock s; interval := interval s |}.

(** The line that ends [genericMessage]. *)
Definition LOG_FINAL (v : BigNumber) : event :=
  EvLog [Str "Final value: "; Big v].

(** ** The loop, turn by turn *)

Lemma waitLoop_turn fuel w b ms att i s :
  waitLoop (S fuel) w b ms att i s =
  match number_call w (reads s) with
  | inl e => (Throw e, polled ms s)
  | inr f =>
      if BigNumber_eq f b then
        if i + 1 >? att then emit LOG_TOO_MUCH_TIME (polled ms s)
        else waitLoop fuel w b ms att (i + 1) (polled ms s)
      else
        (emit LOG_BRIDGED ;;
         n <- settle (toNumber f) ;;
         emit (LOG_VALUE_AFTER n)) (polled ms s)
  end.
Proof.
  cbn [waitLoop]. unfold bind at 1. cbn [sleep].
  unfold bind at 1, fetchAfterValue, counterContract_number. cbn [reads trace].
  destruct (number_call w (reads s)) as [e | f]; [reflexivity |].
  cbn [settle ret]. destruct (BigNumber_eq f b); cbn [negb]; [| reflexivity].
  destruct (i + 1 >? att); reflexivity.
Qed.

Lemma bridged_branch f s :
  (emit LOG_BRIDGED ;;
   n <- settle (toNumber f) ;;
   emit (LOG_VALUE_AFTER n)) s =
  match toNumber f with
  | inr n =>
      (Ret tt,
       {| trace := (trace s ++ [LOG_BRIDGED]) ++ [LOG_VALUE_AFTER n];
          reads := reads s; queries := queries s; clock := clock s;
          interval := interval s |})
  | inl e =>
      (Throw e,
       {| trace := trace s ++ [LOG_BRIDGED]; reads := reads s;
          queries := queries s; clock := clock s; interval := interval s |})
  end.
Proof. unfold bind, emit. destruct (toNumber f); reflexivity. Qed.

Lemma BigNumber_eq_refl b : BigNumber_eq b b = true.
Proof. apply Z.eqb_refl. Qed.

Lemma BigNumber_eq_false f b : BigNumber_eq f b = false <-> f <> b.
Proof. apply Z.eqb_neq. Qed.

(** *** Reads that return the baseline are passed over *)

Lemma polled_iter_reads n ms s :
  reads (Nat.iter n (polled ms) s) = (reads s + n)%nat.
Proof.
  induction n as [| n IH]; [cbn; lia |].
  rewrite Nat.iter_succ. cbn [polled reads]. rewrite IH. lia.
Qed.

Lemma polled_iter_clock n ms s :
  clock (Nat.iter n (polled ms) s) = clock s + Z.of_nat n * ms.
Proof.
  induction n as [| n IH]; [cbn; lia |].
  rewrite Nat.iter_succ. cbn [polled clock]. rewrite IH. lia.
Qed.

Lemma polled_iter_trace n ms s :
  trace (Nat.iter n (polled ms) s) = trace s ++ polls ms (reads s) n.
Proof.
  revert s. induction n as [| n IH]; intros s.
  - cbn. now rewrite app_nil_r.
  - rewrite Nat.iter_succ_r, IH. cbn [polled trace reads polls seq flat_map].
    now rewrite <- !app_assoc.
Qed.

Lemma unchanged_polled w b ms s n :
  unchanged w b s (S n) -> unchanged w b (polled ms s) n.
Proof.
  intros H j Hj. cbn [polled reads].
  replace (S (reads s) + j)%nat with (reads s + S j)%nat by lia.
  apply H. lia.
Qed.

Lemma unchanged_head w b s n :
  unchanged w b s (S n) -> number_call w (reads s) = inr b.
Proof. intros H. rewrite <- (Nat.add_0_r (reads s)). apply H. lia. Qed.

Lemma waitLoop_skip n :
  forall fuel w b ms att i s,
    unchanged w b s n ->
    n = 0%nat \/ i + Z.of_nat n <= att ->
    waitLoop (n + fuel) w b ms att i s =
    waitLoop fuel w b ms att (i + Z.of_nat n) (Nat.iter n (polled ms) s).
Proof.
  induction n as [| n IH]; intros fuel w b ms att i s Hun Hle.
  - cbn [Nat.add Nat.iter Z.of_nat]. now rewrite Z.add_0_r.
  - destruct Hle as [Hle | Hle]; [discriminate |].
    replace (S n + fuel)%nat with (S (n + fuel)) by lia.
    rewrite waitLoop_turn, (unchanged_head _ _ _ _ Hun), BigNumber_eq_refl.
    destruct (Z.gtb_spec (i + 1) att) as [Hgt | _]; [lia |].
    rewrite IH; [| now apply unchanged_polled | lia].
    rewrite Nat.iter_succ_r. f_equal. lia.
Qed.

(** *** The loop ends, and how many reads it makes *)

Lemma waitLoop_bound fuel :
  forall w b ms att i s r s',
    (Z.to_nat (att - i) < fuel)%nat ->
    waitLoop fuel w b ms att i s = (r, s') ->
    r <> OutOfFuel /\ (forall c, r <> Exit c) /\
    (reads s < reads s' <= reads s + Z.to_nat (att - i) + 1)%nat /\
    clock s' = clock s + Z.of_nat (reads s' - reads s) * ms.
Proof.
  induction fuel as [| fuel IH]; intros w b ms att i s r s' Hfuel Hrun; [lia |].
  rewrite waitLoop_turn in Hrun.
  destruct (number_call w (reads s)) as [e | f].
  { injection Hrun as <- <-. cbn [polled reads clock].
    repeat split; try discriminate; lia. }
  destruct (BigNumber_eq f b).
  - destruct (Z.gtb_spec (i + 1) att) as [Hgt | Hle].
    + injection Hrun as <- <-. cbn [polled reads clock].
      repeat split; try discriminate; lia.
    + apply IH in Hrun; [| lia].
      destruct Hrun as (Hfuel' & Hexit & Hreads & Hclock).
      cbn [polled reads clock] in Hreads, Hclock.
      repeat split; try assumption; lia.
  - rewrite bridged_branch in Hrun.
    destruct (toNumber f); injection Hrun as <- <-; cbn [polled reads clock];
      repeat split; try discriminate; lia.
Qed.

(** A run that ended within its budget ends the same way with a larger
    one. *)
Lemma waitLoop_more_fuel fuel :
  forall fuel' w b ms att i s,
    (fuel <= fuel')%nat ->
    fst (waitLoop fuel w b ms att i s) <> OutOfFuel ->
    waitLoop fuel' w b ms att i s = waitLoop fuel w b ms att i s.
Proof.
  induction fuel as [| fuel IH]; intros fuel' w b ms att i s Hle Hdone.
  { now contradiction Hdone. }
  destruct fuel' as [| fuel']; [lia |].
  rewrite !waitLoop_turn in *.
  destruct (number_call w (reads s)) as [e | f]; [reflexivity |].
  destruct (BigNumber_eq f b); [| reflexivity].
  destruct (i + 1 >? att); [reflexivity |].
  apply IH; [lia | exact Hdone].
Qed.

(** *** When the success line is printed *)

Lemma waitLoop_bridged_iff fuel :
  forall w b ms att i s r s',
    waitLoop fuel w b ms att i s = (r, s') ->
    exists evs,
      trace s' = trace s ++ evs /\
      (reads s <= reads s')%nat /\
      (In LOG_BRIDGED evs <->
       exists k f,
         reads s' = S k /\ (reads s <= k)%nat /\
         number_call w k = inr f /\ BigNumber_eq f b = false).
Proof.
  induction fuel as [| fuel IH]; intros w b ms att i s r s' Hrun.
  { injection Hrun as <- <-. exists []. rewrite app_nil_r.
    split; [reflexivity |]. split; [lia |]. split; [intros [] |].
    intros (k & f & Hk & Hle & _). lia. }
  rewrite waitLoop_turn in Hrun.
  destruct (number_call w (reads s)) as [e | f] eqn:Hread.
  { injection Hrun as <- <-.
    exists [EvSleep ms; EvCallNumber (reads s)]. cbn [polled trace reads].
    rewrite <- app_assoc. split; [reflexivity |]. split; [lia |].
    split.
    - cbn [In]. unfold LOG_BRIDGED. intuition discriminate.
    - intros (k & f & Hk & _ & Hf & _).
      injection Hk as <-. congruence. }
  destruct (BigNumber_eq f b) eqn:Hfb.
  - destruct (i + 1 >? att).
    + injection Hrun as <- <-.
      exists [EvSleep ms; EvCallNumber (reads s); LOG_TOO_MUCH_TIME].
      cbn [polled trace reads]. rewrite <- !app_assoc.
      split; [reflexivity |]. split; [lia |]. split.
      * cbn [In]. unfold LOG_BRIDGED, LOG_TOO_MUCH_TIME. intuition discriminate.
      * intros (k & f' & Hk & _ & Hf & Hne).
        injection Hk as <-. congruence.
    + apply IH in Hrun. destruct Hrun as (evs & Htr & Hmono & Hiff).
      cbn [polled trace reads] in Htr, Hmono, Hiff.
      exists ([EvSleep ms; EvCallNumber (reads s)] ++ evs).
      rewrite Htr, <- !app_assoc. split; [reflexivity |]. split; [lia |].
      rewrite in_app_iff, Hiff. split.
      * intros [Hin | (k & f' & Hk & Hle & Hf & Hne)].
        { cbn [In] in Hin. unfold LOG_BRIDGED in Hin. intuition discriminate. }
        exists k, f'. repeat split; try assumption. lia.
      * intros (k & f' & Hk & Hle & Hf & Hne). right.
        exists k, f'. repeat split; try assumption.
        destruct (Nat.eq_dec k (reads s)) as [-> | Hk']; [congruence | lia].
  - rewrite bridged_branch in Hrun.
    destruct (toNumber f) as [e | n]; injection Hrun as <- <-;
      cbn [polled trace reads]; rewrite <- ?app_assoc;
      eexists; (split; [reflexivity |]); (split; [lia |]);
      (split; [intros _; exists (reads s), f; repeat split; [lia | assumption..]
              | intros _; cbn [app In]; tauto]).
Qed.

(** ** The status poller, firing by firing *)

Lemma eventLoop_tick n w s t :
  interval s = Some t ->
  eventLoop (S n) w s =
  if terminal (status_call w (queries s)) then (Exit 0, ticked w t s)
  else eventLoop n w (ticked w t s).
Proof.
  intros Ht. cbn [eventLoop]. rewrite Ht.
  unfold ticked, bind at 1, statusCallback, catch, bind at 1, getStatus.
  cbn [queries trace reads clock interval].
  destruct (status_call w (queries s)) as [e | [| first rest]];
    cbn [settle throw ret terminal tickEvents].
  - unfold console_log, emit. cbn [trace reads queries clock interval].
    now rewrite <- app_assoc.
  - change (([] : list TransferStatusResponse) !! 0%nat) with
      (@None TransferStatusResponse).
    unfold console_log, emit. cbn [trace reads queries clock interval].
    now rewrite <- app_assoc.
  - change ((first :: rest) !! 0%nat) with (Some first).
    unfold bind, console_log, emit, clearInterval, process_exit, ret.
    unfold tickEvents, terminal.
    cbn [trace reads queries clock interval].
    destruct (String.eqb (status first) "executed");
      cbn [trace reads queries clock interval];
      rewrite <- ?app_assoc; reflexivity.
Qed.

Lemma ticked_interval w t s :
  interval (ticked w t s) =
  if terminal (status_call w (queries s)) then None else Some t.
Proof. reflexivity. Qed.

Lemma ticked_queries w t s : queries (ticked w t s) = S (queries s).
Proof. reflexivity. Qed.

Lemma ticked_trace w t s :
  trace (ticked w t s) =
  trace s ++ tickEvents (txHash t) (queries s) (status_call w (queries s)).
Proof. reflexivity. Qed.

Lemma ticked_iter_queries n w t s :
  queries (Nat.iter n (ticked w t) s) = (queries s + n)%nat.
Proof.
  induction n as [| n IH]; [cbn; lia |].
  rewrite Nat.iter_succ. cbn [ticked queries]. rewrite IH. lia.
Qed.

Lemma ticked_iter_clock n w t s :
  clock (Nat.iter n (ticked w t) s) = clock s + Z.of_nat n * period t.
Proof.
  induction n as [| n IH]; [cbn; lia |].
  rewrite Nat.iter_succ. cbn [ticked clock]. rewrite IH. lia.
Qed.

Lemma ticked_iter_trace n w t s :
  trace (Nat.iter n (ticked w t) s) =
  trace s ++ firings w (txHash t) (queries s) n.
Proof.
  revert s. induction n as [| n IH]; intros s.
  - cbn. now rewrite app_nil_r.
  - rewrite Nat.iter_succ_r, IH. unfold firings.
    cbn [ticked trace queries seq flat_map]. now rewrite <- app_assoc.
Qed.

Lemma pending_ticked w t s n :
  pending w s (S n) -> pending w (ticked w t s) n.
Proof.
  intros H j Hj. cbn [ticked queries].
  replace (S (queries s) + j)%nat with (queries s + S j)%nat by lia.
  apply H. lia.
Qed.

Lemma pending_head w s n :
  pending w s (S n) -> terminal (status_call w (queries s)) = false.
Proof. intros H. rewrite <- (Nat.add_0_r (queries s)). apply H. lia. Qed.

Lemma ticked_iter_interval n :
  forall w t s,
    pending w s n -> interval s = Some t ->
    interval (Nat.iter n (ticked w t) s) = Some t.
Proof.
  induction n as [| n IH]; intros w t s Hp Ht; [exact Ht |].
  rewrite Nat.iter_succ_r. apply IH; [now apply pending_ticked |].
  cbn [ticked interval]. now rewrite (pending_head _ _ _ Hp).
Qed.

(** While no reply is terminal, every firing is followed by the next. *)
Lemma eventLoop_pending n :
  forall w t s,
    interval s = Some t -> pending w s n ->
    eventLoop n w s = (Ret tt, Nat.iter n (ticked w t) s).
Proof.
  induction n as [| n IH]; intros w t s Ht Hp; [reflexivity |].
  rewrite (eventLoop_tick _ _ _ _ Ht), (pending_head _ _ _ Hp).
  rewrite Nat.iter_succ_r. apply IH; [| now apply pending_ticked].
  cbn [ticked interval]. now rewrite (pending_head _ _ _ Hp).
Qed.

(** A terminal reply after [n] that are not ends the polling there, however
    many firings are followed. *)
Lemma eventLoop_terminal n m :
  forall w t s,
    interval s = Some t -> pending w s n ->
    terminal (status_call w (queries s + n)) = true ->
    eventLoop (n + S m) w s =
    (Exit 0, ticked w t (Nat.iter n (ticked w t) s)).
Proof.
  induction n as [| n IH]; intros w t s Ht Hp Hterm.
  - cbn [Nat.add Nat.iter]. rewrite Nat.add_0_r in Hterm.
    now rewrite (eventLoop_tick _ _ _ _ Ht), Hterm.
  - cbn [Nat.add]. rewrite (eventLoop_tick _ _ _ _ Ht), (pending_head _ _ _ Hp).
    rewrite Nat.iter_succ_r. apply IH.
    + cbn [ticked interval]. now rewrite (pending_head _ _ _ Hp).
    + now apply pending_ticked.
    + cbn [ticked queries].
      now replace (S (queries s) + n)%nat with (queries s + S n)%nat by lia.
Qed.

(** ** The order of the phases *)

Lemma follows_app tr1 :
  forall p tr2,
    follows p (tr1 ++ tr2) =
    match follows p tr1 with
    | Some q => follows q tr2
    | None => None
    end.
Proof.
  induction tr1 as [| ev tr1 IH]; intros p tr2; [reflexivity |].
  cbn [app follows]. destruct (advance p ev); [apply IH | reflexivity].
Qed.

Lemma follows_polling tr :
  forall q, follows Polling tr = Some q ->
    q = Polling /\ existsb is_watcher tr = false.
Proof.
  induction tr as [| ev tr IH]; intros q H; cbn [follows advance] in H.
  - injection H as <-. now split.
  - destruct (is_watcher ev) eqn:Hw; [discriminate |].
    cbn [existsb]. rewrite Hw. now apply IH.
Qed.

Lemma follows_overlap tr :
  forall p q, follows p tr = Some q -> overlap tr = false.
Proof.
  induction tr as [| ev tr IH]; intros p q H; [reflexivity |].
  cbn [follows] in H. destruct (advance p ev) as [p' |] eqn:Hadv; [| discriminate].
  cbn [overlap]. rewrite (IH _ _ H), orb_false_r.
  destruct (is_poller ev) eqn:Hp; [| reflexivity].
  assert (p' = Polling) as ->.
  { destruct p; cbn [advance] in Hadv; rewrite ?Hp, ?orb_true_r in Hadv.
    - discriminate.
    - congruence.
    - destruct (is_watcher ev); congruence. }
  now destruct (follows_polling _ _ H) as [_ ->].
Qed.

Lemma follows_submitted_first tr :
  forall q, follows Submitting tr = Some q -> submitted_first tr = true.
Proof.
  induction tr as [| ev tr IH]; intros q H; [reflexivity |].
  cbn [follows advance] in H. cbn [submitted_first].
  destruct (is_watcher ev || is_poller ev); [discriminate |].
  destruct (is_send ev); [reflexivity |]. cbn [negb andb]. now apply (IH q).
Qed.

Lemma genericMessage_split fuel w walletAddress s :
  genericMessage fuel w walletAddress s =
  (started <- submit w walletAddress ;;
   waitUntilBridged fuel w (fst started) None None ;;
   startPolling w (snd started)) s.
Proof.
  unfold genericMessage, submit, startPolling, remote, bind, console_log, emit,
    counterContract_number.
  cbn [trace reads queries clock interval].
  destruct (number_call w (reads s)); cbn [settle throw ret]; [reflexivity |].
  destruct (sdk_init w); cbn [settle throw ret]; [reflexivity |].
  destruct (sdk_fee w) as [| fee]; cbn [settle throw ret]; [reflexivity |].
  destruct (sdk_transaction w fee) as [| transferTx]; cbn [settle throw ret];
    [reflexivity |].
  destruct (send_transaction w transferTx); cbn [settle throw ret];
    reflexivity.
Qed.

(** A branch of [submit] that stopped on a rejected call. *)
Ltac stopped :=
  rewrite <- !app_assoc; eexists; eexists;
  split; [reflexivity | split; [reflexivity | discriminate]].

Lemma submit_follows w walletAddress s :
  exists evs q,
    trace (snd (submit w walletAddress s)) = trace s ++ evs /\
    follows Submitting evs = Some q /\
    (forall started, fst (submit w walletAddress s) = Ret started ->
       q = Watching).
Proof.
  unfold submit, remote, bind, console_log, emit, counterContract_number.
  cbn [trace reads queries clock interval].
  destruct (number_call w (reads s)); cbn [settle throw ret fst snd trace];
    [stopped |].
  destruct (sdk_init w); cbn [settle throw ret fst snd trace]; [stopped |].
  destruct (sdk_fee w) as [| fee]; cbn [settle throw ret fst snd trace];
    [stopped |].
  destruct (sdk_transaction w fee) as [| transferTx];
    cbn [settle throw ret fst snd trace]; [stopped |].
  destruct (send_transaction w transferTx);
    cbn [settle throw ret fst snd trace]; [stopped |].
  rewrite <- !app_assoc. eexists; eexists.
  split; [reflexivity |]. split; reflexivity.
Qed.

Lemma accepted_trans p q r s1 s2 s3 :
  accepted p s1 s2 q -> accepted q s2 s3 r -> accepted p s1 s3 r.
Proof.
  intros (evs1 & Htr1 & Hf1) (evs2 & Htr2 & Hf2).
  exists (evs1 ++ evs2). rewrite Htr2, Htr1, <- app_assoc.
  split; [reflexivity |]. now rewrite follows_app, Hf1.
Qed.

Lemma moduleInit_accepted w s :
  accepted Submitting s (snd (moduleInit w s)) Submitting.
Proof.
  unfold moduleInit, bind, console_log, emit.
  destruct (negb (truthy (env w !! "PRIVATE_KEY"))); cbn [throw ret snd].
  { exists []. now rewrite app_nil_r. }
  cbn [trace reads queries clock interval].
  destruct (wallet_address w _); cbn [settle throw ret snd trace];
    rewrite <- ?app_assoc; eexists; (split; [reflexivity |]); reflexivity.
Qed.

Lemma submit_accepted w walletAddress s :
  exists q,
    accepted Submitting s (snd (submit w walletAddress s)) q /\
    (forall started, fst (submit w walletAddress s) = Ret started ->
       q = Watching).
Proof.
  destruct (submit_follows w walletAddress s) as (evs & q & Htr & Hf & Hq).
  exists q. split; [now exists evs | exact Hq].
Qed.

Lemma waitLoop_accepted fuel :
  forall w b ms att i s,
    accepted Watching s (snd (waitLoop fuel w b ms att i s)) Watching.
Proof.
  induction fuel as [| fuel IH]; intros w b ms att i s.
  { exists []. cbn. now rewrite app_nil_r. }
  assert (accepted Watching s (polled ms s) Watching) as Hturn.
  { exists [EvSleep ms; EvCallNumber (reads s)]. cbn [polled trace].
    now rewrite <- app_assoc. }
  rewrite waitLoop_turn.
  destruct (number_call w (reads s)) as [e | f]; [exact Hturn |].
  apply (accepted_trans _ _ _ _ _ _ Hturn).
  destruct (BigNumber_eq f b).
  - destruct (i + 1 >? att); [| apply IH].
    exists [LOG_TOO_MUCH_TIME]. now split.
  - rewrite bridged_branch. destruct (toNumber f) as [e | n]; cbn [snd trace].
    + exists [LOG_BRIDGED]. now split.
    + exists [LOG_BRIDGED; LOG_VALUE_AFTER n]. now rewrite <- app_assoc.
Qed.

Lemma startPolling_accepted w hash s :
  accepted Watching s (snd (startPolling w hash s)) Polling.
Proof.
  unfold startPolling, bind, setInterval, fetchAfterValue,
    counterContract_number, console_log, emit.
  cbn [trace reads queries clock interval].
  destruct (number_call w (reads s)); cbn [settle throw ret snd trace];
    rewrite <- ?app_assoc; eexists; (split; [reflexivity |]); reflexivity.
Qed.

Lemma tickEvents_follows hash k reply :
  follows Polling (tickEvents hash k reply) = Some Polling.
Proof.
  destruct reply as [e | [| first rest]]; [reflexivity | reflexivity |].
  unfold tickEvents. destruct (String.eqb (status first) "executed"); reflexivity.
Qed.

Lemma eventLoop_accepted ticks :
  forall w s,
    accepted Polling s (snd (eventLoop ticks w s)) Polling /\
    (forall e, fst (eventLoop ticks w s) <> Throw e) /\
    fst (eventLoop ticks w s) <> OutOfFuel.
Proof.
  assert (forall s, accepted Polling s s Polling) as Hrefl.
  { intros s. exists []. now rewrite app_nil_r. }
  induction ticks as [| ticks IH]; intros w s.
  { cbn. repeat split; [apply Hrefl | discriminate..]. }
  destruct (interval s) as [t |] eqn:Ht.
  - assert (accepted Polling s (ticked w t s) Polling) as Htick.
    { eexists. split; [reflexivity | apply tickEvents_follows]. }
    rewrite (eventLoop_tick _ _ _ _ Ht).
    destruct (terminal (status_call w (queries s))).
    + cbn [fst snd]. repeat split; [exact Htick | discriminate..].
    + destruct (IH w (ticked w t s)) as (Hacc & Hthrow & Hfuel).
      repeat split; [| assumption..].
      exact (accepted_trans _ _ _ _ _ _ Htick Hacc).
  - cbn [eventLoop]. rewrite Ht. cbn [fst snd].
    repeat split; [apply Hrefl | discriminate..].
Qed.

(** Every run goes through its phases in order. *)
Lemma run_accepted fuel ticks w :
  exists q, accepted Submitting initial (snd (run fuel ticks w)) q.
Proof.
  unfold run.
  pose proof (moduleInit_accepted w initial) as H0.
  destruct (moduleInit w initial) as [[walletAddress | e | c |] s0];
    cbn [snd] in H0 |- *; try (eexists; exact H0).
  rewrite genericMessage_split. unfold bind at 1.
  destruct (submit_accepted w walletAddress s0) as (q1 & H1 & Hq1).
  pose proof (accepted_trans _ _ _ _ _ _ H0 H1) as H01.
  destruct (submit w walletAddress s0) as [[started | e | c |] s1];
    cbn [fst snd] in H01, Hq1 |- *; try (eexists; exact H01).
  rewrite (Hq1 _ eq_refl) in H01. clear H0 H1 Hq1.
  unfold bind at 1, waitUntilBridged. cbn [default].
  pose proof (waitLoop_accepted fuel w (fst started) 15000 8 0 s1) as H2.
  pose proof (accepted_trans _ _ _ _ _ _ H01 H2) as H02.
  destruct (waitLoop fuel w (fst started) 15000 8 0 s1) as [[[] | e | c |] s2];
    cbn [snd] in H02 |- *; try (eexists; exact H02).
  pose proof (startPolling_accepted w (snd started) s2) as H3.
  pose proof (accepted_trans _ _ _ _ _ _ H02 H3) as H03.
  destruct (startPolling w (snd started) s2) as [[[] | e | c |] s3];
    cbn [snd] in H03 |- *; try (eexists; exact H03).
  destruct (eventLoop_accepted ticks w s3) as (H4 & _).
  pose proof (accepted_trans _ _ _ _ _ _ H03 H4) as H04.
  destruct (eventLoop ticks w s3) as [[[] | e | c |] s4];
    cbn [snd] in H04 |- *; eexists; exact H04.
Qed.

(** *** How the watcher ends after reads that return the baseline *)

(** A turn of the loop is reached after [n] such reads when the counter has
    not passed [attempts] by then. *)
Lemma waitLoop_read_fails n fuel w b ms att i s e :
  unchanged w b s n ->
  number_call w (reads s + n) = inl e ->
  n = 0%nat \/ i + Z.of_nat n <= att ->
  waitLoop (n + S fuel) w b ms att i s =
  (Throw e, polled ms (Nat.iter n (polled ms) s)).
Proof.
  intros Hun Hread Hle.
  rewrite (waitLoop_skip n _ _ _ _ _ _ _ Hun Hle), waitLoop_turn.
  now rewrite polled_iter_reads, Hread.
Qed.

Lemma waitLoop_changed n fuel w b ms att i s f :
  unchanged w b s n ->
  number_call w (reads s + n) = inr f ->
  BigNumber_eq f b = false ->
  n = 0%nat \/ i + Z.of_nat n <= att ->
  waitLoop (n + S fuel) w b ms att i s =
  (emit LOG_BRIDGED ;;
   x <- settle (toNumber f) ;;
   emit (LOG_VALUE_AFTER x)) (polled ms (Nat.iter n (polled ms) s)).
Proof.
  intros Hun Hread Hne Hle.
  rewrite (waitLoop_skip n _ _ _ _ _ _ _ Hun Hle), waitLoop_turn.
  now rewrite polled_iter_reads, Hread, Hne.
Qed.

Lemma waitLoop_gives_up n fuel w b ms att i s :
  unchanged w b s (S n) ->
  n = 0%nat \/ i + Z.of_nat n <= att ->
  att < i + Z.of_nat n + 1 ->
  waitLoop (n + S fuel) w b ms att i s =
  emit LOG_TOO_MUCH_TIME (polled ms (Nat.iter n (polled ms) s)).
Proof.
  intros Hun Hle Hgt.
  assert (unchanged w b s n) as Hun' by (intros j Hj; apply Hun; lia).
  rewrite (waitLoop_skip n _ _ _ _ _ _ _ Hun' Hle), waitLoop_turn.
  rewrite polled_iter_reads, (Hun n), BigNumber_eq_refl by lia.
  destruct (Z.gtb_spec (i + Z.of_nat n + 1) att); [reflexivity | lia].
Qed.

(** The projections of the state after [n] turns and one more. *)
Lemma polled_turns_trace n ms s :
  trace (polled ms (Nat.iter n (polled ms) s)) =
  trace s ++ polls ms (reads s) (S n).
Proof. now rewrite <- Nat.iter_succ, polled_iter_trace. Qed.

Lemma polled_turns_reads n ms s :
  reads (polled ms (Nat.iter n (polled ms) s)) = (reads s + S n)%nat.
Proof. now rewrite <- Nat.iter_succ, polled_iter_reads. Qed.

Lemma polled_turns_clock n ms s :
  clock (polled ms (Nat.iter n (polled ms) s)) =
  clock s + Z.of_nat (S n) * ms.
Proof. now rewrite <- Nat.iter_succ, polled_iter_clock. Qed.

(** *** The events of firings *)

Lemma firings_errors w hash (errs : nat -> exn) k n :
  (forall j, (k <= j < k + n)%nat -> status_call w j = inl (errs j)) ->
  firings w hash k n =
  flat_map (fun j => [EvGetStatus j hash; EvLog [Str "error:"; Obj (errs j)]])
    (seq k n).
Proof.
  intros H. unfold firings. rewrite !flat_map_concat_map. f_equal.
  apply map_ext_in. intros j Hj. apply in_seq in Hj. now rewrite H.
Qed.

Lemma firings_pending w hash k n :
  (forall j, (k <= j < k + n)%nat -> terminal (status_call w j) = false) ->
  Forall (fun ev => ev <> EvClearInterval /\ forall c, ev <> EvExit c)
    (firings w hash k n).
Proof.
  intros H. unfold firings. apply Forall_flat_map, List.Forall_forall.
  intros j Hj. apply in_seq in Hj. specialize (H j Hj).
  destruct (status_call w j) as [e | [| first rest]]; cbn [terminal] in H;
    unfold tickEvents; rewrite ?H;
    repeat (constructor; [split; [discriminate | intros; discriminate] |]);
    constructor.
Qed.

Lemma terminal_iff reply :
  terminal reply = true <->
  exists first rest, reply = inr (first :: rest) /\ status first = "executed".
Proof.
  split.
  - destruct reply as [e | [| first rest]]; cbn [terminal]; try discriminate.
    intros H. exists first, rest. split; [reflexivity |].
    now apply String.eqb_eq.
  - intros (first & rest & -> & H). cbn [terminal]. now apply String.eqb_eq.
Qed.

(** ** What the run before the firings leaves untouched *)

Lemma moduleInit_queries w s : queries (snd (moduleInit w s)) = queries s.
Proof.
  unfold moduleInit, bind, console_log, emit.
  destruct (negb (truthy (env w !! "PRIVATE_KEY"))); [reflexivity |].
  cbn [ret trace reads queries clock interval].
  now destruct (wallet_address w _).
Qed.

Lemma submit_queries w walletAddress s :
  queries (snd (submit w walletAddress s)) = queries s.
Proof.
  unfold submit, remote, bind, console_log, emit, counterContract_number.
  cbn [trace reads queries clock interval].
  destruct (number_call w (reads s)); cbn [settle throw ret]; [reflexivity |].
  destruct (sdk_init w); cbn [settle throw ret]; [reflexivity |].
  destruct (sdk_fee w) as [| fee]; cbn [settle throw ret]; [reflexivity |].
  destruct (sdk_transaction w fee) as [| transferTx]; cbn [settle throw ret];
    [reflexivity |].
  now destruct (send_transaction w transferTx).
Qed.

Lemma waitLoop_queries fuel :
  forall w b ms att i s,
    queries (snd (waitLoop fuel w b ms att i s)) = queries s.
Proof.
  induction fuel as [| fuel IH]; intros w b ms att i s; [reflexivity |].
  rewrite waitLoop_turn.
  destruct (number_call w (reads s)) as [e | f]; [reflexivity |].
  destruct (BigNumber_eq f b).
  - destruct (i + 1 >? att); [reflexivity | now rewrite IH].
  - rewrite bridged_branch. now destruct (toNumber f).
Qed.

Lemma startPolling_queries w hash s :
  queries (snd (startPolling w hash s)) = queries s.
Proof.
  unfold startPolling, bind, setInterval, fetchAfterValue,
    counterContract_number, console_log, emit.
  cbn [trace reads queries clock interval].
  now destruct (number_call w (reads s)).
Qed.

Lemma genericMessage_queries fuel w walletAddress s :
  queries (snd (genericMessage fuel w walletAddress s)) = queries s.
Proof.
  rewrite genericMessage_split. unfold bind at 1.
  pose proof (submit_queries w walletAddress s) as H1.
  destruct (submit w walletAddress s) as [[started | e | c |] s1];
    cbn [snd] in H1 |- *; try exact H1.
  unfold bind, waitUntilBridged.
  pose proof (waitLoop_queries fuel w (fst started) (default 15000 None)
                (default 8 None) 0 s1) as H2.
  destruct (waitLoop fuel w (fst started) _ _ 0 s1) as [[[] | e | c |] s2];
    cbn [snd] in H2 |- *; try congruence.
  rewrite startPolling_queries. congruence.
Qed.

(** * The properties *)

(** ** The destination-value watcher *)

(** C1.  Whatever the baseline [b] and the reads, the watcher prints its
    success line exactly when the last read it made returned a value [f]
    with [f.eq(b)] false: a value other than the baseline is what makes it
    report success, and nothing else does. *)
Theorem waitUntilBridged_success_iff_changed :
  forall fuel w (b : BigNumber) ms att s,
    let s' := snd (waitUntilBridged fuel w b ms att s) in
    exists evs,
      trace s' = trace s ++ evs /\
      (In LOG_BRIDGED evs <->
       exists k f,
         reads s' = S k /\ (reads s <= k)%nat /\
         number_call w k = inr f /\
         BigNumber_eq f b = false /\ f <> b).
Proof.
  intros fuel w b ms att s s'. unfold waitUntilBridged in s'.
  destruct (waitLoop fuel w b (default 15000 ms) (default 8 att) 0 s)
    as [r s''] eqn:Hrun.
  apply waitLoop_bridged_iff in Hrun. destruct Hrun as (evs & Htr & _ & Hiff).
  subst s'. cbn [snd]. exists evs. split; [exact Htr |].
  rewrite Hiff. split; intros (k & f & Hk & Hle & Hf & Hne); exists k, f.
  - repeat split; try assumption. now apply BigNumber_eq_false.
  - now repeat split.
Qed.

(** C2.  The watcher always ends, after at most [attempts + 1] reads: a
    budget of more than [attempts] turns is never used up, and a larger one
    changes nothing.  With the defaults (15000 ms, 8 attempts): when the
    value differs from the baseline at the third read for the first time,
    the watcher reports success after exactly 3 reads, and returns normally
    when the value is a safe integer; when the value never differs, it
    prints its timeout line and returns normally after 9 reads. *)
Theorem waitUntilBridged_terminates_within_attempts :
  (forall fuel w (b : BigNumber) ms att s,
     let a := default 8 att in
     let out := waitUntilBridged fuel w b ms att s in
     (Z.to_nat a < fuel)%nat ->
     fst out <> OutOfFuel /\
     (reads s < reads (snd out))%nat /\
     (0 <= a -> Z.of_nat (reads (snd out) - reads s) <= a + 1) /\
     clock (snd out) =
       clock s + Z.of_nat (reads (snd out) - reads s) * default 15000 ms /\
     forall fuel',
       (fuel <= fuel')%nat -> waitUntilBridged fuel' w b ms att s = out) /\
  (forall fuel w (b f : BigNumber) s,
     let out := waitUntilBridged fuel w b None None s in
     (3 <= fuel)%nat ->
     unchanged w b s 2 ->
     number_call w (reads s + 2) = inr f ->
     f <> b ->
     reads (snd out) = (reads s + 3)%nat /\
     clock (snd out) = clock s + 45000 /\
     exists rest,
       trace (snd out) =
         trace s ++ polls 15000 (reads s) 3 ++ LOG_BRIDGED :: rest /\
       (Z.abs f < SAFE_LIMIT ->
        fst out = Ret tt /\ rest = [LOG_VALUE_AFTER f])) /\
  (forall fuel w (b : BigNumber) s,
     let out := waitUntilBridged fuel w b None None s in
     (9 <= fuel)%nat ->
     unchanged w b s 9 ->
     fst out = Ret tt /\
     reads (snd out) = (reads s + 9)%nat /\
     clock (snd out) = clock s + 135000 /\
     trace (snd out) =
       trace s ++ polls 15000 (reads s) 9 ++ [LOG_TOO_MUCH_TIME]).
Proof.
  split; [| split].
  - intros fuel w b ms att s a out Hfuel. subst out. unfold waitUntilBridged.
    fold a.
    destruct (waitLoop fuel w b (default 15000 ms) a 0 s) as [r s'] eqn:Hrun.
    pose proof Hrun as Hrun'.
    apply waitLoop_bound in Hrun; [| now rewrite Z.sub_0_r].
    rewrite Z.sub_0_r in Hrun. destruct Hrun as (Hr & _ & Hreads & Hclock).
    cbn [fst snd]. repeat split; try assumption; try lia.
    intros fuel' Hle. unfold waitUntilBridged. fold a. rewrite <- Hrun'.
    apply waitLoop_more_fuel; [exact Hle | now rewrite Hrun'].
  - intros fuel w b f s out Hfuel Hun Hread Hne. subst out.
    unfold waitUntilBridged. cbn [default].
    replace fuel with (2 + S (fuel - 3))%nat by lia.
    rewrite (waitLoop_changed 2 _ _ _ _ _ _ _ f Hun Hread);
      [| now apply BigNumber_eq_false | right; cbn; lia].
    rewrite bridged_branch. unfold toNumber.
    destruct (Z.ltb_spec (Z.abs f) SAFE_LIMIT) as [_ | Hge];
      cbn [fst snd trace reads clock];
      rewrite polled_turns_trace, polled_turns_reads, polled_turns_clock;
      (split; [reflexivity |]); (split; [lia |]).
    + exists [LOG_VALUE_AFTER f]. rewrite <- !app_assoc. now repeat split.
    + exists []. rewrite <- !app_assoc. split; [reflexivity | lia].
  - intros fuel w b s out Hfuel Hun. subst out.
    unfold waitUntilBridged. cbn [default].
    replace fuel with (8 + S (fuel - 9))%nat by lia.
    rewrite (waitLoop_gives_up 8 _ _ _ _ _ _ _ Hun);
      [| right; cbn; lia | cbn; lia].
    cbn [emit fst snd trace reads clock].
    rewrite polled_turns_trace, polled_turns_reads, polled_turns_clock.
    repeat split; try lia. now rewrite <- !app_assoc.
Qed.

(** C4.  A read that fails is not made again: the promise of the watcher
    rejects with the error of the read, after the reads made so far and
    without any line printed, neither the timeout line nor the success
    line.  The outcome is an exception, which a value that stays the same
    never gives. *)
Theorem waitUntilBridged_read_failure_propagates :
  forall fuel w (b : BigNumber) ms att s n e,
    let out := waitUntilBridged fuel w b ms att s in
    unchanged w b s n ->
    number_call w (reads s + n) = inl e ->
    n = 0%nat \/ Z.of_nat n <= default 8 att ->
    (n < fuel)%nat ->
    fst out = Throw e /\
    reads (snd out) = (reads s + S n)%nat /\
    trace (snd out) = trace s ++ polls (default 15000 ms) (reads s) (S n) /\
    ~ In LOG_TOO_MUCH_TIME (polls (default 15000 ms) (reads s) (S n)) /\
    ~ In LOG_BRIDGED (polls (default 15000 ms) (reads s) (S n)).
Proof.
  intros fuel w b ms att s n e out Hun Hread Hle Hfuel. subst out.
  unfold waitUntilBridged.
  replace fuel with (n + S (fuel - S n))%nat by lia.
  rewrite (waitLoop_read_fails n _ _ _ _ _ _ _ e Hun Hread) by lia.
  cbn [fst snd]. rewrite polled_turns_trace, polled_turns_reads.
  repeat split; unfold polls; rewrite in_flat_map;
    intros (j & _ & Hin); cbn [In] in Hin;
    unfold LOG_TOO_MUCH_TIME, LOG_BRIDGED in Hin; intuition discriminate.
Qed.

(** C9.  On the success branch the changed value goes through [toNumber];
    for every value of at least [2 ^ 53] that throws, so the watcher prints
    its success line and then rejects with the numeric fault instead of
    returning.  Such values are [uint256] values. *)
Theorem waitUntilBridged_overflow_on_success :
  forall fuel w (b f : BigNumber) ms att s n,
    let out := waitUntilBridged fuel w b ms att s in
    unchanged w b s n ->
    number_call w (reads s + n) = inr f ->
    f <> b ->
    SAFE_LIMIT <= f ->
    n = 0%nat \/ Z.of_nat n <= default 8 att ->
    (n < fuel)%nat ->
    toNumber f = inl (NumericFault "overflow" "toNumber") /\
    fst out = Throw (NumericFault "overflow" "toNumber") /\
    trace (snd out) =
      trace s ++ polls (default 15000 ms) (reads s) (S n) ++ [LOG_BRIDGED] /\
    uint256 SAFE_LIMIT.
Proof.
  intros fuel w b f ms att s n out Hun Hread Hne Hbig Hle Hfuel. subst out.
  assert (toNumber f = inl (NumericFault "overflow" "toNumber")) as Hto.
  { unfold toNumber. destruct (Z.ltb_spec (Z.abs f) SAFE_LIMIT); [lia | easy]. }
  unfold waitUntilBridged.
  replace fuel with (n + S (fuel - S n))%nat by lia.
  rewrite (waitLoop_changed n _ _ _ _ _ _ _ f Hun Hread);
    [| now apply BigNumber_eq_false | lia].
  rewrite bridged_branch, Hto. cbn [fst snd trace].
  rewrite polled_turns_trace, <- app_assoc.
  repeat split; try reflexivity; unfold SAFE_LIMIT; lia.
Qed.

(** ** The order of the watcher and the status poller *)

(** C3, as the script has it.  The transfer is submitted before the watcher
    and the status poller do anything, and the status poller is started
    only once the watcher has returned: in no run does an event of the
    poller come before an event of the watcher. *)
Theorem status_poller_starts_after_watcher :
  forall fuel ticks w,
    let tr := trace (snd (run fuel ticks w)) in
    submitted_first tr = true /\ overlap tr = false.
Proof.
  intros fuel ticks w tr. subst tr.
  destruct (run_accepted fuel ticks w) as (q & evs & Htr & Hf).
  cbn [initial trace app] in Htr. rewrite Htr. split.
  - exact (follows_submitted_first _ _ Hf).
  - exact (follows_overlap _ _ _ Hf).
Qed.

(** ** The module body *)

(** C5.  Without [PRIVATE_KEY] in the environment the module body throws
    at once: nothing has been printed, no call has been made, and
    [genericMessage] is never called. *)
Theorem missing_private_key_fails_before_network :
  forall fuel ticks w,
    env w !! "PRIVATE_KEY" = None ->
    run fuel ticks w =
      (ModuleThrew (Error "Missing environment variable: PRIVATE_KEY"),
       initial) /\
    trace (snd (run fuel ticks w)) = [].
Proof.
  intros fuel ticks w Hkey.
  assert (run fuel ticks w =
          (ModuleThrew (Error "Missing environment variable: PRIVATE_KEY"),
           initial)) as Hrun.
  { unfold run, moduleInit, bind. now rewrite Hkey. }
  now rewrite Hrun.
Qed.

(** ** The status poller *)

(** C6.  A firing whose query returns no record prints that the transaction
    is not indexed yet and the polling goes on; a firing whose query returns
    records prints the status of the first.  When the API returns nothing
    four times, then [pending], then [executed], the poller prints the
    waiting line four times, then [pending], then [executed], and stops:
    there is no seventh query. *)
Theorem status_poller_reports_first_status :
  (forall w s t,
     let out := eventLoop 1 w s in
     interval s = Some t ->
     status_call w (queries s) = inr [] ->
     fst out = Ret tt /\
     interval (snd out) = Some t /\
     trace (snd out) =
       trace s ++ [EvGetStatus (queries s) (txHash t);
                   EvLog [Str "Waiting for the TX to be indexed"]]) /\
  (forall w s t first rest,
     let out := eventLoop 1 w s in
     interval s = Some t ->
     status_call w (queries s) = inr (first :: rest) ->
     exists more,
       trace (snd out) =
         trace s ++ EvGetStatus (queries s) (txHash t) ::
                    EvLog [Str "Status of the transfer"; Str (status first)] ::
                    more /\
       (status first <> "executed" ->
        more = [] /\ fst out = Ret tt /\ interval (snd out) = Some t)) /\
  (forall m w s t,
     let out := eventLoop (6 + m) w s in
     let k := queries s in
     interval s = Some t ->
     (forall j, (j < 6)%nat -> status_call w (j + k) = indexedLate j) ->
     fst out = Exit 0 /\
     interval (snd out) = None /\
     queries (snd out) = (6 + k)%nat /\
     trace (snd out) =
       trace s ++
       [EvGetStatus k (txHash t);
        EvLog [Str "Waiting for the TX to be indexed"];
        EvGetStatus (1 + k) (txHash t);
        EvLog [Str "Waiting for the TX to be indexed"];
        EvGetStatus (2 + k) (txHash t);
        EvLog [Str "Waiting for the TX to be indexed"];
        EvGetStatus (3 + k) (txHash t);
        EvLog [Str "Waiting for the TX to be indexed"];
        EvGetStatus (4 + k) (txHash t);
        EvLog [Str "Status of the transfer"; Str "pending"];
        EvGetStatus (5 + k) (txHash t);
        EvLog [Str "Status of the transfer"; Str "executed"];
        EvClearInterval;
        EvExit 0]).
Proof.
  split; [| split].
  - intros w s t out Ht Hreply. subst out.
    rewrite (eventLoop_tick _ _ _ _ Ht), Hreply. cbn [terminal eventLoop ret].
    unfold ticked. rewrite Hreply. now cbn.
  - intros w s t first rest out Ht Hreply. subst out.
    rewrite (eventLoop_tick _ _ _ _ Ht), Hreply. cbn [terminal eventLoop ret].
    unfold ticked, tickEvents, terminal. rewrite Hreply.
    destruct (String.eqb_spec (status first) "executed") as [Heq | Hne];
      cbn [fst snd trace interval]; eexists; (split; [reflexivity |]).
    + intros Hne. contradiction.
    + intros _. now repeat split.
  - intros m w s t out k Ht Hreply. subst out k.
    pose proof (Hreply 0%nat ltac:(lia)) as H0.
    pose proof (Hreply 1%nat ltac:(lia)) as H1.
    pose proof (Hreply 2%nat ltac:(lia)) as H2.
    pose proof (Hreply 3%nat ltac:(lia)) as H3.
    pose proof (Hreply 4%nat ltac:(lia)) as H4.
    pose proof (Hreply 5%nat ltac:(lia)) as H5.
    cbn [Nat.add] in H0, H1, H2, H3, H4, H5.
    assert (pending w s 5) as Hpending.
    { intros j Hj. rewrite Nat.add_comm, Hreply by lia.
      do 5 (destruct j as [| j]; [reflexivity |]). lia. }
    change (6 + m)%nat with (5 + S m)%nat.
    rewrite (eventLoop_terminal 5 m w t s Ht Hpending)
      by (rewrite Nat.add_comm; cbn [Nat.add]; now rewrite H5).
    cbn [fst snd].
    rewrite ticked_interval, ticked_queries, ticked_trace.
    rewrite ticked_iter_queries, ticked_iter_trace, (Nat.add_comm (queries s)).
    cbn [Nat.add]. rewrite H5. unfold firings. cbn [seq flat_map].
    rewrite H0, H1, H2, H3, H4. cbn. rewrite <- !app_assoc.
    now repeat split.
Qed.

(** C7.  When the first record of a reply says [executed], the poller
    prints it, clears its interval and calls [process.exit(0)]: no further
    query is made, however long one waits, and the run has exited with
    code 0. *)
Theorem executed_stops_polling_and_exits :
  (forall m w s t first rest,
     let out := eventLoop (S m) w s in
     interval s = Some t ->
     status_call w (queries s) = inr (first :: rest) ->
     status first = "executed" ->
     fst out = Exit 0 /\
     interval (snd out) = None /\
     queries (snd out) = S (queries s) /\
     trace (snd out) =
       trace s ++ [EvGetStatus (queries s) (txHash t);
                   EvLog [Str "Status of the transfer"; Str "executed"];
                   EvClearInterval;
                   EvExit 0]) /\
  (forall fuel m w first rest,
     fst (run fuel 0 w) = Running ->
     status_call w 0 = inr (first :: rest) ->
     status first = "executed" ->
     fst (run fuel (S m) w) = Exited 0 /\
     queries (snd (run fuel (S m) w)) = 1%nat /\
     interval (snd (run fuel (S m) w)) = None).
Proof.
  assert (forall m w s t first rest,
            interval s = Some t ->
            status_call w (queries s) = inr (first :: rest) ->
            status first = "executed" ->
            eventLoop (S m) w s = (Exit 0, ticked w t s) /\
            interval (ticked w t s) = None) as Htick.
  { intros m w s t first rest Ht Hreply Hstatus.
    assert (terminal (status_call w (queries s)) = true) as Hterm
      by (apply terminal_iff; eauto).
    now rewrite (eventLoop_tick _ _ _ _ Ht), ticked_interval, Hterm. }
  split.
  - intros m w s t first rest out Ht Hreply Hstatus. subst out.
    destruct (Htick m w s t first rest Ht Hreply Hstatus) as [-> Hnone].
    cbn [fst snd]. rewrite Hnone, ticked_queries, ticked_trace, Hreply.
    unfold tickEvents. rewrite Hstatus. now repeat split.
  - intros fuel m w first rest Hrunning Hreply Hstatus.
    unfold run in *.
    pose proof (moduleInit_queries w initial) as Hq0.
    destruct (moduleInit w initial) as [[walletAddress | e | c |] s0];
      try discriminate.
    pose proof (genericMessage_queries fuel w walletAddress s0) as Hq1.
    destruct (genericMessage fuel w walletAddress s0) as [[[] | e | c |] s1];
      try discriminate.
    cbn [snd initial queries eventLoop ret fst] in Hq0, Hq1, Hrunning.
    destruct (interval s1) as [t |] eqn:Ht; [| discriminate].
    assert (queries s1 = 0%nat) as Hq by congruence.
    rewrite <- Hq in Hreply.
    destruct (Htick m w s1 t first rest Ht Hreply Hstatus) as [-> Hnone].
    cbn [fst snd]. rewrite Hnone, ticked_queries, Hq. now repeat split.
Qed.

(** C8.  A query of the status API that fails is printed and nothing else
    happens: the interval stays armed with the same period, and the next
    firing makes the next query, for as many failures in a row as one
    likes. *)
Theorem status_query_error_is_retried :
  forall n w s t (errs : nat -> exn),
    let out := eventLoop n w s in
    interval s = Some t ->
    (forall j, (queries s <= j < queries s + n)%nat ->
       status_call w j = inl (errs j)) ->
    fst out = Ret tt /\
    interval (snd out) = Some t /\
    queries (snd out) = (queries s + n)%nat /\
    clock (snd out) = clock s + Z.of_nat n * period t /\
    trace (snd out) =
      trace s ++
      flat_map
        (fun j => [EvGetStatus j (txHash t); EvLog [Str "error:"; Obj (errs j)]])
        (seq (queries s) n).
Proof.
  intros n w s t errs out Ht Herr. subst out.
  assert (pending w s n) as Hpending.
  { intros j Hj. now rewrite Herr by lia. }
  rewrite (eventLoop_pending n w t s Ht Hpending). cbn [fst snd].
  rewrite (ticked_iter_interval n w t s Hpending Ht), ticked_iter_queries,
    ticked_iter_clock, ticked_iter_trace, (firings_errors _ _ errs _ _ Herr).
  now repeat split.
Qed.

(** C10.  Only a first record that says exactly [executed] stops the
    poller.  A firing that ends the polling had such a reply; and as long
    as no reply has one, be it empty, failed or of any other status, the
    interval stays armed, every firing makes its query, and the process is
    not exited. *)
Theorem status_poller_stops_only_on_executed :
  (forall w s t,
     let out := eventLoop 1 w s in
     interval s = Some t ->
     (exists c, fst out = Exit c) \/ interval (snd out) = None ->
     exists first rest,
       status_call w (queries s) = inr (first :: rest) /\
       status first = "executed") /\
  (forall n w s t,
     let out := eventLoop n w s in
     interval s = Some t ->
     (forall j first rest,
        (j < n)%nat ->
        status_call w (queries s + j) = inr (first :: rest) ->
        status first <> "executed") ->
     fst out = Ret tt /\
     interval (snd out) = Some t /\
     queries (snd out) = (queries s + n)%nat /\
     exists evs,
       trace (snd out) = trace s ++ evs /\
       ~ In EvClearInterval evs /\
       forall c, ~ In (EvExit c) evs).
Proof.
  split.
  - intros w s t out Ht Hstop. subst out. apply terminal_iff.
    rewrite (eventLoop_tick _ _ _ _ Ht) in Hstop.
    destruct (terminal (status_call w (queries s))) eqn:Hterm; [reflexivity |].
    cbn [eventLoop ret fst snd] in Hstop. rewrite ticked_interval, Hterm in Hstop.
    destruct Hstop as [[c Hc] | Hnone]; discriminate.
  - intros n w s t out Ht Hother. subst out.
    assert (pending w s n) as Hpending.
    { intros j Hj.
      destruct (terminal (status_call w (queries s + j))) eqn:Hterm;
        [| reflexivity].
      apply terminal_iff in Hterm. destruct Hterm as (first & rest & Hr & Hst).
      now destruct (Hother j first rest Hj Hr). }
    rewrite (eventLoop_pending n w t s Ht Hpending). cbn [fst snd].
    rewrite (ticked_iter_interval n w t s Hpending Ht), ticked_iter_queries,
      ticked_iter_trace.
    repeat split. exists (firings w (txHash t) (queries s) n).
    split; [reflexivity |].
    assert (Forall (fun ev => ev <> EvClearInterval /\ forall c, ev <> EvExit c)
              (firings w (txHash t) (queries s) n)) as Hall.
    { apply firings_pending. intros j Hj.
      replace j with (queries s + (j - queries s))%nat by lia.
      apply Hpending. lia. }
    rewrite List.Forall_forall in Hall. split.
    + intros Hin. now destruct (Hall _ Hin) as [Hne _].
    + intros c Hin. destruct (Hall _ Hin) as [_ Hne]. now apply (Hne c).
Qed.

(** * Concrete runs *)

(** C3 as a claim of concurrency fails in scenario A.  The whole script
    there: the watcher sleeps three times, 45000 ms
    in all and nine periods of the status poller, and only after its two
    lines is the interval armed; the first query comes after the final
    read.  No event of the poller precedes an event of the watcher, so the
    two do not run side by side. *)
Lemma status_poller_waits_for_watcher_scenarioA :
  let tr := trace (snd (run 9 6 scenarioA)) in
  fst (run 9 6 scenarioA) = Exited 0 /\
  firstn 12 (skipn 13 tr) =
    [EvLog [Str "Waiting for relayers to bridge transaction..."];
     EvSleep 15000; EvCallNumber 1;
     EvSleep 15000; EvCallNumber 2;
     EvSleep 15000; EvCallNumber 3;
     LOG_BRIDGED; LOG_VALUE_AFTER 105;
     EvSetInterval 5000;
     EvCallNumber 4;
     EvLog [Str "Final value: "; Big 105]] /\
  existsb is_watcher tr = true /\
  existsb is_poller tr = true /\
  overlap tr = false /\
  overlap tr <> true.
Proof. vm_compute. repeat split. discriminate. Qed.

(** Scenarios A and B, from the state in which the watcher is called. *)
Lemma waitUntilBridged_terminates_within_attempts_witness :
  let out := waitUntilBridged 9 scenarioB 104 None None afterBaseline in
  (fst out <> OutOfFuel /\ Z.of_nat (reads (snd out) - 1) <= 8 + 1) /\
  (reads (snd (waitUntilBridged 9 scenarioA 104 None None afterBaseline)) =
   4%nat) /\
  (fst out = Ret tt /\ reads (snd out) = 10%nat /\
   clock (snd out) = 135000).
Proof.
  destruct waitUntilBridged_terminates_within_attempts as (Hbound & HA & HB).
  split; [| split].
  - destruct (Hbound 9%nat scenarioB 104 None None afterBaseline) as (H1 & _ & H2 & _).
    + vm_compute. lia.
    + split; [exact H1 | apply H2; vm_compute; discriminate].
  - destruct (HA 9%nat scenarioA 104 105 afterBaseline) as (H1 & _).
    + lia.
    + intros j Hj. destruct j as [| [| j]]; [reflexivity | reflexivity | lia].
    + reflexivity.
    + lia.
    + exact H1.
  - destruct (HB 9%nat scenarioB 104 afterBaseline) as (H1 & H2 & H3 & _).
    + lia.
    + intros j Hj. reflexivity.
    + now repeat split.
Defined.

(** The second read of the watcher fails. *)
Lemma waitUntilBridged_read_failure_propagates_witness :
  let out := waitUntilBridged 9 scenarioReadFails 104 None None afterBaseline in
  fst out = Throw (Error "timeout") /\ reads (snd out) = 3%nat.
Proof.
  destruct (waitUntilBridged_read_failure_propagates 9 scenarioReadFails 104
              None None afterBaseline 1 (Error "timeout")) as (H1 & H2 & _).
  - intros j Hj. destruct j as [| j]; [reflexivity | lia].
  - reflexivity.
  - right. vm_compute. discriminate.
  - lia.
  - split; [exact H1 | exact H2].
Defined.

(** The first read of the watcher returns [2 ^ 53]. *)
Lemma waitUntilBridged_overflow_on_success_witness :
  let out := waitUntilBridged 9 scenarioOverflow 104 None None afterBaseline in
  fst out = Throw (NumericFault "overflow" "toNumber") /\
  trace (snd out) = [EvSleep 15000; EvCallNumber 1; LOG_BRIDGED].
Proof.
  destruct (waitUntilBridged_overflow_on_success 9 scenarioOverflow 104
              (2 ^ 53) None None afterBaseline 0) as (_ & H1 & H2 & _).
  - intros j Hj. lia.
  - reflexivity.
  - lia.
  - vm_compute. discriminate.
  - now left.
  - lia.
  - split; [exact H1 | exact H2].
Defined.

(** An environment that sets an RPC endpoint only. *)
Lemma missing_private_key_fails_before_network_witness :
  run 9 6 scenarioNoKey =
    (ModuleThrew (Error "Missing environment variable: PRIVATE_KEY"), initial) /\
  trace (snd (run 9 6 scenarioNoKey)) = [].
Proof.
  apply (missing_private_key_fails_before_network 9 6 scenarioNoKey).
  vm_compute. reflexivity.
Defined.

(** Scenario C, followed for ten firings. *)
Lemma status_poller_reports_first_status_witness :
  let out := eventLoop 10 scenarioA armed in
  fst out = Exit 0 /\ interval (snd out) = None /\ queries (snd out) = 6%nat.
Proof.
  destruct status_poller_reports_first_status as (_ & _ & HC).
  destruct (HC 4%nat scenarioA armed {| period := 5000; txHash := "0x251be7fc" |})
    as (H1 & H2 & H3 & _).
  - reflexivity.
  - intros j Hj. cbn [armed queries]. now rewrite Nat.add_0_r.
  - now repeat split.
Defined.

(** The first query already finds the transfer executed. *)
Lemma executed_stops_polling_and_exits_witness :
  fst (eventLoop 3 scenarioExecuted armed) = Exit 0 /\
  fst (run 9 3 scenarioExecuted) = Exited 0.
Proof.
  destruct executed_stops_polling_and_exits as (Htick & Hrun). split.
  - destruct (Htick 2%nat scenarioExecuted armed
                {| period := 5000; txHash := "0x251be7fc" |}
                {| status := "executed" |} []) as (H1 & _);
      [reflexivity | reflexivity | reflexivity | exact H1].
  - destruct (Hrun 9%nat 2%nat scenarioExecuted {| status := "executed" |} [])
      as (H1 & _);
      [vm_compute; reflexivity | reflexivity | reflexivity | exact H1].
Defined.

(** Three queries in a row fail. *)
Lemma status_query_error_is_retried_witness :
  let out := eventLoop 3 scenarioApiDown armed in
  fst out = Ret tt /\
  interval (snd out) = Some {| period := 5000; txHash := "0x251be7fc" |} /\
  queries (snd out) = 3%nat /\
  clock (snd out) = 15000.
Proof.
  destruct (status_query_error_is_retried 3 scenarioApiDown armed
              {| period := 5000; txHash := "0x251be7fc" |}
              (fun _ => Error "503")) as (H1 & H2 & H3 & H4 & _).
  - reflexivity.
  - intros j Hj. cbn [armed queries] in Hj.
    destruct j as [| [| [| j]]]; [reflexivity | reflexivity | reflexivity | lia].
  - now repeat split.
Defined.

(** The transfer has failed: the poller goes on. *)
Lemma status_poller_stops_only_on_executed_witness :
  let out := eventLoop 4 scenarioFailed armed in
  fst out = Ret tt /\
  interval (snd out) = Some {| period := 5000; txHash := "0x251be7fc" |} /\
  queries (snd out) = 4%nat.
Proof.
  destruct status_poller_stops_only_on_executed as (_ & Hgo).
  destruct (Hgo 4%nat scenarioFailed armed
              {| period := 5000; txHash := "0x251be7fc" |})
    as (H1 & H2 & H3 & _).
  - reflexivity.
  - intros j first rest Hj Hreply. injection Hreply as <- _. discriminate.
  - now repeat split.
Defined.

(** * Further properties of the script *)

(** ** The shape of a run of the watcher *)

Lemma polls_succ ms k n :
  polls ms k (S n) = [EvSleep ms; EvCallNumber k] ++ polls ms (S k) n.
Proof. reflexivity. Qed.

Lemma waitLoop_shape fuel :
  forall w b ms att i s,
    let out := waitLoop fuel w b ms att i s in
    exists n e,
      trace (snd out) = trace s ++ polls ms (reads s) n ++ ending_lines e /\
      reads (snd out) = (reads s + n)%nat /\
      clock (snd out) = clock s + Z.of_nat n * ms /\
      queries (snd out) = queries s /\
      interval (snd out) = interval s /\
      (n <= fuel)%nat /\
      (fst out = Ret tt <-> returned e = true) /\
      (forall c, fst out <> Exit c).
Proof.
  induction fuel as [| fuel IH]; intros w b ms att i s out; subst out.
  { exists 0%nat, Cut. cbn. rewrite app_nil_r.
    repeat split; try lia; try discriminate. }
  rewrite waitLoop_turn.
  destruct (number_call w (reads s)) as [e | f].
  { exists 1%nat, Cut. cbn [fst snd polled trace reads clock queries interval].
    cbn [polls seq flat_map ending_lines returned]. rewrite <- !app_assoc.
    repeat split; try lia; try discriminate. }
  destruct (BigNumber_eq f b).
  - destruct (i + 1 >? att).
    + exists 1%nat, TimedOut.
      cbn [emit fst snd polled trace reads clock queries interval].
      cbn [polls seq flat_map ending_lines returned]. rewrite <- !app_assoc.
      repeat split; try lia; try discriminate.
    + destruct (IH w b ms att (i + 1) (polled ms s))
        as (n & e & Htr & Hreads & Hclock & Hq & Hint & Hn & Hret & Hexit).
      exists (S n), e. rewrite Htr, Hreads, Hclock, Hq, Hint, polls_succ.
      cbn [polled trace reads clock queries interval]. rewrite <- !app_assoc.
      repeat split; try lia; try apply Hret; try apply Hexit.
  - rewrite bridged_branch. destruct (toNumber f) as [e | x].
    + exists 1%nat, Overflowed.
      cbn [fst snd polled trace reads clock queries interval].
      cbn [polls seq flat_map ending_lines returned]. rewrite <- !app_assoc.
      repeat split; try lia; try discriminate.
    + exists 1%nat, (Bridged x).
      cbn [fst snd polled trace reads clock queries interval].
      cbn [polls seq flat_map ending_lines returned]. rewrite <- !app_assoc.
      repeat split; try lia; try discriminate.
Qed.

(** ** The shape of a run of the poller *)

Lemma pending_cons w t s n :
  terminal (status_call w (queries s)) = false ->
  pending w (ticked w t s) n ->
  pending w s (S n).
Proof.
  intros Hhead Hrest [| j] Hj.
  - now rewrite Nat.add_0_r.
  - replace (queries s + S j)%nat with (queries (ticked w t s) + j)%nat
      by (cbn [ticked queries]; lia).
    apply Hrest. lia.
Qed.

(** The firings that are followed go on until the first terminal reply. *)
Lemma eventLoop_shape ticks :
  forall w s t,
    interval s = Some t ->
    let out := eventLoop ticks w s in
    exists m,
      (m <= ticks)%nat /\
      snd out = Nat.iter m (ticked w t) s /\
      ((fst out = Ret tt /\ m = ticks /\ pending w s ticks) \/
       (fst out = Exit 0 /\
        exists m', m = S m' /\ pending w s m' /\
          terminal (status_call w (queries s + m')) = true)).
Proof.
  induction ticks as [| ticks IH]; intros w s t Ht out; subst out.
  { exists 0%nat. cbn. repeat split; [lia |]. left.
    repeat split. intros j Hj. lia. }
  rewrite (eventLoop_tick _ _ _ _ Ht).
  destruct (terminal (status_call w (queries s))) eqn:Hterm.
  - exists 1%nat. cbn [fst snd Nat.iter nat_rect]. repeat split; [lia |].
    right. split; [reflexivity |]. exists 0%nat.
    rewrite Nat.add_0_r. repeat split; [| exact Hterm]. intros j Hj. lia.
  - assert (interval (ticked w t s) = Some t) as Ht'
      by (now rewrite ticked_interval, Hterm).
    destruct (IH w (ticked w t s) t Ht') as (m & Hm & Hsnd & Hcases).
    exists (S m). rewrite Hsnd, Nat.iter_succ_r. repeat split; [lia |].
    destruct Hcases as [(Hret & -> & Hp) | (Hexit & m' & -> & Hp & Hlast)].
    + left. repeat split; [exact Hret |]. now apply (pending_cons _ t).
    + right. split; [exact Hexit |]. exists (S m').
      repeat split; [now apply (pending_cons _ t) |].
      now replace (queries s + S m')%nat
        with (queries (ticked w t s) + m')%nat
        by (cbn [ticked queries]; lia).
Qed.


(** ** What each part of a run can print and call *)

Lemma in_polls ms k n ev :
  In ev (polls ms k n) -> ev = EvSleep ms \/ exists j, ev = EvCallNumber j.
Proof.
  unfold polls. rewrite in_flat_map. intros (j & _ & Hin).
  cbn [In] in Hin. destruct Hin as [<- | [<- | []]]; eauto.
Qed.

Lemma in_ending_lines e ev :
  In ev (ending_lines e) ->
  (ev = LOG_TOO_MUCH_TIME /\ e = TimedOut) \/
  (exists n, ev = LOG_VALUE_AFTER n /\ e = Bridged n) \/
  ev = LOG_BRIDGED.
Proof.
  destruct e; cbn [ending_lines In]; intros H;
    repeat (destruct H as [<- | H]); try contradiction; eauto.
Qed.

Lemma in_tickEvents hash k reply ev :
  In ev (tickEvents hash k reply) ->
  ev = EvGetStatus k hash \/
  (exists e, ev = EvLog [Str "error:"; Obj e]) \/
  ev = EvLog [Str "Waiting for the TX to be indexed"] \/
  (exists st, ev = EvLog [Str "Status of the transfer"; Str st]) \/
  ev = EvClearInterval \/
  ev = EvExit 0.
Proof.
  unfold tickEvents. intros [<- | Hin]; [now left |]. right.
  destruct reply as [e | [| first rest]].
  - destruct Hin as [<- | []]. eauto.
  - destruct Hin as [<- | []]. eauto.
  - destruct Hin as [<- | Hin]; [eauto |].
    destruct (String.eqb (status first) "executed"); cbn [In] in Hin;
      intuition.
Qed.

Lemma in_firings w hash k n ev :
  In ev (firings w hash k n) ->
  (exists j, (k <= j < k + n)%nat /\ ev = EvGetStatus j hash) \/
  (exists e, ev = EvLog [Str "error:"; Obj e]) \/
  ev = EvLog [Str "Waiting for the TX to be indexed"] \/
  (exists st, ev = EvLog [Str "Status of the transfer"; Str st]) \/
  ev = EvClearInterval \/
  ev = EvExit 0.
Proof.
  unfold firings. rewrite in_flat_map. intros (j & Hj & Hin).
  apply in_seq in Hj. apply in_tickEvents in Hin.
  destruct Hin as [-> | Hin]; [left; eauto | now right].
Qed.

(** ** The module body, the submission and the start of the poller *)

Lemma moduleInit_run w s :
  moduleInit w s =
  if truthy (env w !! "PRIVATE_KEY") then
    match wallet_address w (default "" (env w !! "PRIVATE_KEY")) with
    | inr walletAddress =>
        (Ret walletAddress,
         after (loaded w ++ [EvLog [Str "Fetching contract value..."]]) s)
    | inl e => (Throw e, after (loaded w) s)
    end
  else
    (Throw (Error "Missing environment variable: PRIVATE_KEY"), s).
Proof.
  unfold moduleInit, bind, console_log, emit, after, loaded.
  destruct (truthy (env w !! "PRIVATE_KEY")); cbn [negb throw ret];
    [| reflexivity].
  cbn [trace reads queries clock interval].
  destruct (wallet_address w _);
    cbn [settle throw ret trace reads queries clock interval];
    rewrite <- !app_assoc; reflexivity.
Qed.

Lemma submit_cases w walletAddress s :
  (exists b fee tx hash,
     number_call w (reads s) = inr b /\
     sdk_init w = inr tt /\
     sdk_fee w = inr fee /\
     sdk_transaction w fee = inr tx /\
     send_transaction w tx = inr hash /\
     submit w walletAddress s =
       (Ret (b, hash), submitted walletAddress b fee hash s)) \/
  (exists e evs,
     fst (submit w walletAddress s) = Throw e /\
     trace (snd (submit w walletAddress s)) = trace s ++ evs /\
     forallb quiet evs = true /\
     (length (List.filter is_send evs) <= 1)%nat /\
     (In EvSendTransaction evs ->
      exists fee tx,
        sdk_init w = inr tt /\ sdk_fee w = inr fee /\
        sdk_transaction w fee = inr tx /\ send_transaction w tx = inl e)).
Proof.
  unfold submit, remote, bind, console_log, emit, counterContract_number,
    submitted, submission, theTransfer.
  cbn [trace reads queries clock interval].
  destruct (number_call w (reads s)) as [e | b];
    cbn [settle throw ret fst snd trace].
  { right. exists e. eexists. rewrite <- !app_assoc.
    do 2 (split; [reflexivity |]). repeat split; [cbn; lia |].
    cbn [In app]. intuition discriminate. }
  destruct (sdk_init w) as [e | []]; cbn [settle throw ret fst snd trace].
  { right. exists e. eexists. rewrite <- !app_assoc.
    do 2 (split; [reflexivity |]). repeat split; [cbn; lia |].
    cbn [In app]. intuition discriminate. }
  destruct (sdk_fee w) as [e | fee]; cbn [settle throw ret fst snd trace].
  { right. exists e. eexists. rewrite <- !app_assoc.
    do 2 (split; [reflexivity |]). repeat split; [cbn; lia |].
    cbn [In app]. intuition discriminate. }
  destruct (sdk_transaction w fee) as [e | tx] eqn:Htx;
    cbn [settle throw ret fst snd trace].
  { right. exists e. eexists. rewrite <- !app_assoc.
    do 2 (split; [reflexivity |]). repeat split; [cbn; lia |].
    cbn [In app]. intuition discriminate. }
  destruct (send_transaction w tx) as [e | hash] eqn:Hsend;
    cbn [settle throw ret fst snd trace].
  { right. exists e. eexists. rewrite <- !app_assoc.
    do 2 (split; [reflexivity |]). repeat split; [cbn; lia |].
    intros _. exists fee, tx. now repeat split. }
  left. exists b, fee, tx, hash. rewrite <- !app_assoc. now repeat split.
Qed.

Lemma startPolling_run w hash s :
  startPolling w hash s =
  match number_call w (reads s) with
  | inr v =>
      (Ret tt,
       {| trace :=
            trace s ++ [EvSetInterval 5000; EvCallNumber (reads s); LOG_FINAL v];
          reads := S (reads s); queries := queries s; clock := clock s;
          interval := Some {| period := 5000; txHash := hash |} |})
  | inl e =>
      (Throw e,
       {| trace := trace s ++ [EvSetInterval 5000; EvCallNumber (reads s)];
          reads := S (reads s); queries := queries s; clock := clock s;
          interval := Some {| period := 5000; txHash := hash |} |})
  end.
Proof.
  unfold startPolling, bind, setInterval, fetchAfterValue,
    counterContract_number, console_log, emit, LOG_FINAL.
  cbn [trace reads queries clock interval].
  destruct (number_call w (reads s));
    cbn [settle throw ret trace reads queries clock interval];
    rewrite <- !app_assoc; reflexivity.
Qed.

(** ** The anatomy of a run *)

(** Every run is made of four stretches: what comes before the watcher (the
    module body and the submission), the watcher, the start of the poller
    with the final read, and the firings. *)
Lemma run_anatomy fuel ticks w :
  exists pre n e start poll,
    trace (snd (run fuel ticks w)) =
      pre ++ (polls 15000 1 n ++ ending_lines e) ++ start ++ poll /\
    (if truthy (env w !! "PRIVATE_KEY")
     then exists rest, pre = loaded w ++ rest
     else pre = []) /\
    forallb quiet pre = true /\
    (length (List.filter is_send pre) <= 1)%nat /\
    (In EvSendTransaction pre ->
     exists fee tx,
       sdk_init w = inr tt /\ sdk_fee w = inr fee /\
       sdk_transaction w fee = inr tx) /\
    ((returned e = false /\ start = [] /\ poll = []) \/
     (returned e = true /\
      exists fee tx hash m,
        sdk_fee w = inr fee /\ sdk_transaction w fee = inr tx /\
        send_transaction w tx = inr hash /\
        (start = [EvSetInterval 5000; EvCallNumber (S n)] \/
         exists v,
           start = [EvSetInterval 5000; EvCallNumber (S n); LOG_FINAL v]) /\
        poll = firings w hash 0 m /\ (m <= ticks)%nat)).
Proof.
  unfold run. rewrite moduleInit_run.
  destruct (truthy (env w !! "PRIVATE_KEY")).
  2: { exists [], 0%nat, Cut, [], []. cbn. repeat split; try lia.
       left. now repeat split. }
  destruct (wallet_address w _) as [e0 | walletAddress].
  { exists (loaded w), 0%nat, Cut, [], []. cbn [snd after initial trace app].
    rewrite !app_nil_r. repeat split; try (cbn; lia).
    - exists []. now rewrite app_nil_r.
    - cbn [In loaded]. intuition discriminate.
    - left. now repeat split. }
  set (s0 := after (loaded w ++ [EvLog [Str "Fetching contract value..."]])
               initial).
  assert (trace s0 = loaded w ++ [EvLog [Str "Fetching contract value..."]])
    as Htr0 by reflexivity.
  assert (reads s0 = 0%nat /\ queries s0 = 0%nat) as [Hr0 Hq0] by now split.
  rewrite genericMessage_split. unfold bind at 1.
  destruct (submit_cases w walletAddress s0)
    as [(b & fee & tx & hash & Hb & Hinit & Hfee & Htx & Hsend & Hsub)
       | (e1 & evs & Hfst & Htr1 & Hquiet & Hone & Hsent)].
  2: { destruct (submit w walletAddress s0) as [[started | e | c |] s1];
         cbn [fst snd] in Hfst, Htr1 |- *; try discriminate.
       exists (trace s0 ++ evs), 0%nat, Cut, [], [].
       cbn [polls seq flat_map ending_lines app]. rewrite !app_nil_r.
       split; [exact Htr1 |]. rewrite Htr0.
       split; [eexists; rewrite <- app_assoc; reflexivity |].
       rewrite forallb_app, List.filter_app, length_app, Hquiet.
       repeat split; try (cbn; lia).
       - intros Hin. apply in_app_or in Hin. destruct Hin as [Hin | Hin].
         + cbn [In loaded app] in Hin. intuition discriminate.
         + destruct (Hsent Hin) as (fee & tx & H1 & H2 & H3 & _). eauto.
       - left. now repeat split. }
  rewrite Hsub. cbn [fst snd]. unfold bind at 1, waitUntilBridged.
  cbn [default].
  set (s1 := submitted walletAddress b fee hash s0).
  assert (trace s1 = trace s0 ++ submission walletAddress 0 b fee hash)
    as Htr1 by (unfold s1, submitted; cbn [trace]; now rewrite Hr0).
  assert (reads s1 = 1%nat /\ queries s1 = 0%nat) as [Hr1 Hq1]
    by (unfold s1, submitted; cbn [reads queries]; now rewrite Hr0, Hq0).
  set (pre := trace s0 ++ submission walletAddress 0 b fee hash).
  assert (exists rest, pre = loaded w ++ rest) as Hpre_loaded
    by (unfold pre; rewrite Htr0; eexists; rewrite <- app_assoc; reflexivity).
  assert (forallb quiet pre = true) as Hpre_quiet
    by (unfold pre; rewrite Htr0; reflexivity).
  assert ((length (List.filter is_send pre) <= 1)%nat) as Hpre_one
    by (unfold pre; rewrite Htr0; cbn; lia).
  assert (In EvSendTransaction pre ->
          exists fee tx,
            sdk_init w = inr tt /\ sdk_fee w = inr fee /\
            sdk_transaction w fee = inr tx) as Hpre_ok by eauto.
  destruct (waitLoop_shape fuel w b 15000 8 0 s1)
    as (n & e & Htr2 & Hreads2 & _ & Hq2 & _ & _ & Hret & Hexit).
  rewrite Hr1 in Htr2, Hreads2. rewrite Htr1 in Htr2. rewrite Hq1 in Hq2.
  fold pre in Htr2.
  destruct (waitLoop fuel w b 15000 8 0 s1) as [[[] | e2 | c |] s2];
    cbn [fst snd] in Htr2, Hreads2, Hq2, Hret, Hexit |- *.
  2, 3, 4:
    exists pre, n, e, [], []; rewrite !app_nil_r;
    (split; [exact Htr2 |]); repeat split; try assumption;
    left; repeat split;
    destruct (returned e); [| reflexivity];
    destruct Hret as [_ Hret]; now specialize (Hret eq_refl).
  assert (returned e = true) as Hreturned by now apply Hret.
  rewrite startPolling_run, Hreads2. cbn [Nat.add].
  destruct (number_call w (S n)) as [e3 | v].
  { exists pre, n, e, [EvSetInterval 5000; EvCallNumber (S n)], [].
    cbn [snd trace]. rewrite Htr2, <- !app_assoc.
    repeat split; try assumption. right. split; [exact Hreturned |].
    exists fee, tx, hash, 0%nat. repeat split; try assumption; [| lia].
    now left. }
  match goal with
  | |- context [eventLoop ticks w ?s] => set (s3 := s)
  end.
  destruct (eventLoop_shape ticks w s3 {| period := 5000; txHash := hash |}
              eq_refl) as (m & Hm & Hsnd & _).
  assert (trace (snd (eventLoop ticks w s3)) =
          pre ++ (polls 15000 1 n ++ ending_lines e) ++
          [EvSetInterval 5000; EvCallNumber (S n); LOG_FINAL v] ++
          firings w hash 0 m) as Htr4.
  { rewrite Hsnd, ticked_iter_trace. unfold s3. cbn [trace queries txHash].
    rewrite Htr2, Hq2, <- !app_assoc. reflexivity. }
  exists pre, n, e, [EvSetInterval 5000; EvCallNumber (S n); LOG_FINAL v],
    (firings w hash 0 m).
  split.
  { destruct (eventLoop ticks w s3) as [[[] | e4 | c |] s4];
      cbn [snd] in Htr4 |- *; exact Htr4. }
  repeat split; try assumption. right. split; [exact Hreturned |].
  exists fee, tx, hash, m. repeat split; try assumption. right. now exists v.
Qed.

(** ** The watcher *)

(** X1.  However it ends, the watcher has done nothing but sleep and read in
    turn, each read after a sleep of [intervalDuration], and then printed
    the lines of its ending.  It makes no status query and leaves the
    interval as it was, it never exits the process, and it returns normally
    exactly when it timed out or printed the value after the update. *)
Theorem waitUntilBridged_shape :
  forall fuel w (b : BigNumber) ms att s,
    let out := waitUntilBridged fuel w b ms att s in
    exists n e,
      trace (snd out) =
        trace s ++ polls (default 15000 ms) (reads s) n ++ ending_lines e /\
      reads (snd out) = (reads s + n)%nat /\
      clock (snd out) = clock s + Z.of_nat n * default 15000 ms /\
      queries (snd out) = queries s /\
      interval (snd out) = interval s /\
      (fst out = Ret tt <-> returned e = true) /\
      (forall c, fst out <> Exit c).
Proof.
  intros fuel w b ms att s out. subst out. unfold waitUntilBridged.
  destruct (waitLoop_shape fuel w b (default 15000 ms) (default 8 att) 0 s)
    as (n & e & H1 & H2 & H3 & H4 & H5 & _ & H6 & H7).
  exists n, e. repeat split; try assumption; apply H6.
Qed.


(** X3.  A value other than the baseline is seen at the first read that
    returns one, as long as that read is among the first [attempts + 1]:
    the watcher prints its success line after exactly that many reads, and
    when the value is a safe integer it prints the date of the value and
    returns. *)
Theorem waitUntilBridged_sees_first_change :
  forall fuel w (b f : BigNumber) ms att s n,
    let out := waitUntilBridged fuel w b ms att s in
    unchanged w b s n ->
    number_call w (reads s + n) = inr f ->
    f <> b ->
    Z.abs f < SAFE_LIMIT ->
    n = 0%nat \/ Z.of_nat n <= default 8 att ->
    (n < fuel)%nat ->
    fst out = Ret tt /\
    reads (snd out) = (reads s + S n)%nat /\
    clock (snd out) = clock s + Z.of_nat (S n) * default 15000 ms /\
    trace (snd out) =
      trace s ++ polls (default 15000 ms) (reads s) (S n) ++
      [LOG_BRIDGED; LOG_VALUE_AFTER f].
Proof.
  intros fuel w b f ms att s n out Hun Hread Hne Hsafe Hle Hfuel. subst out.
  unfold waitUntilBridged.
  replace fuel with (n + S (fuel - S n))%nat by lia.
  rewrite (waitLoop_changed n _ _ _ _ _ _ _ f Hun Hread);
    [| now apply BigNumber_eq_false | lia].
  rewrite bridged_branch. unfold toNumber.
  destruct (Z.ltb_spec (Z.abs f) SAFE_LIMIT) as [_ | Hge]; [| lia].
  cbn [fst snd trace reads clock].
  rewrite polled_turns_trace, polled_turns_reads, polled_turns_clock.
  repeat split. now rewrite <- !app_assoc.
Qed.

(** ** The status poller *)



(** ** The module body and the submission *)

Lemma truthy_false_iff v : truthy v = false <-> v = None \/ v = Some "".
Proof.
  destruct v as [k |]; cbn [truthy].
  - destruct (String.eqb_spec k "") as [-> | Hne]; cbn [negb]; split.
    + intros _. now right.
    + reflexivity.
    + discriminate.
    + intros [H | H]; [discriminate | congruence].
  - split; [now left | reflexivity].
Qed.

(** X6.  A [PRIVATE_KEY] that is set to the empty string counts as missing:
    the module throws the same error.  The script does nothing at all, it
    prints nothing and creates no provider, exactly when the key is unset
    or empty. *)
Theorem empty_private_key_counts_as_missing :
  (forall fuel ticks w,
     env w !! "PRIVATE_KEY" = Some "" ->
     run fuel ticks w =
       (ModuleThrew (Error "Missing environment variable: PRIVATE_KEY"),
        initial)) /\
  (forall fuel ticks w,
     trace (snd (run fuel ticks w)) = [] <->
     env w !! "PRIVATE_KEY" = None \/ env w !! "PRIVATE_KEY" = Some "").
Proof.
  split.
  - intros fuel ticks w Hkey. unfold run. rewrite moduleInit_run, Hkey.
    reflexivity.
  - intros fuel ticks w. rewrite <- truthy_false_iff.
    destruct (truthy (env w !! "PRIVATE_KEY")) eqn:Hkey.
    + destruct (run_anatomy fuel ticks w)
        as (pre & n & e & start & poll & Htr & Hpre & _).
      rewrite Hkey in Hpre. destruct Hpre as (rest & ->).
      rewrite Htr. split; discriminate.
    + unfold run. rewrite moduleInit_run, Hkey. now split.
Qed.

(** X7.  When the wallet cannot be made of the key, the module throws what
    the constructor threw: the providers exist and the contract line is
    printed, but [genericMessage] is never called, so nothing is read and
    nothing is sent. *)
Theorem wallet_rejection_stops_module :
  forall fuel ticks w key e,
    env w !! "PRIVATE_KEY" = Some key ->
    key <> "" ->
    wallet_address w key = inl e ->
    fst (run fuel ticks w) = ModuleThrew e /\
    trace (snd (run fuel ticks w)) = loaded w /\
    reads (snd (run fuel ticks w)) = 0%nat.
Proof.
  intros fuel ticks w key e Hkey Hne Hwallet.
  unfold run. rewrite moduleInit_run, Hkey. cbn [truthy default].
  destruct (String.eqb_spec key "") as [-> | _]; [contradiction |].
  cbn [negb]. unfold id. rewrite Hwallet. now repeat split.
Qed.

(** X8.  A call that is rejected during the submission rejects
    [genericMessage] with the same error and is not made again.  When the
    fee cannot be quoted, no transaction is built or sent; when the
    transaction is refused, it has been sent once.  In both cases the
    watcher does not start and no interval is armed. *)
Theorem failed_submission_rejects :
  (forall fuel w walletAddress s (b : BigNumber) e,
     let out := genericMessage fuel w walletAddress s in
     number_call w (reads s) = inr b ->
     sdk_init w = inr tt ->
     sdk_fee w = inl e ->
     fst out = Throw e /\
     interval (snd out) = interval s /\
     clock (snd out) = clock s /\
     trace (snd out) =
       trace s ++
       [EvLog [Str "Sending a generic message transfer..."];
        EvCallNumber (reads s);
        EvLog [Str "Value before update: "; Big b];
        EvSdkInit;
        EvGetFee (theTransfer walletAddress)]) /\
  (forall fuel w walletAddress s (b : BigNumber) fee tx e,
     let out := genericMessage fuel w walletAddress s in
     number_call w (reads s) = inr b ->
     sdk_init w = inr tt ->
     sdk_fee w = inr fee ->
     sdk_transaction w fee = inr tx ->
     send_transaction w tx = inl e ->
     fst out = Throw e /\
     interval (snd out) = interval s /\
     clock (snd out) = clock s /\
     trace (snd out) =
       trace s ++
       [EvLog [Str "Sending a generic message transfer..."];
        EvCallNumber (reads s);
        EvLog [Str "Value before update: "; Big b];
        EvSdkInit;
        EvGetFee (theTransfer walletAddress);
        EvLog [Str "Fee for the transfer: "; Big fee];
        EvBuildTransaction;
        EvSendTransaction]).
Proof.
  split.
  - intros fuel w walletAddress s b e out Hb Hinit Hfee. subst out.
    unfold genericMessage, remote, bind, console_log, emit,
      counterContract_number.
    cbn [trace reads queries clock interval]. rewrite Hb.
    cbn [settle throw ret trace reads queries clock interval]. rewrite Hinit.
    cbn [settle throw ret trace reads queries clock interval]. rewrite Hfee.
    cbn [settle throw ret fst snd trace reads queries clock interval].
    rewrite <- !app_assoc. now repeat split.
  - intros fuel w walletAddress s b fee tx e out Hb Hinit Hfee Htx Hsend.
    subst out.
    unfold genericMessage, remote, bind, console_log, emit,
      counterContract_number.
    cbn [trace reads queries clock interval]. rewrite Hb.
    cbn [settle throw ret trace reads queries clock interval]. rewrite Hinit.
    cbn [settle throw ret trace reads queries clock interval]. rewrite Hfee.
    cbn [settle throw ret trace reads queries clock interval]. rewrite Htx.
    cbn [settle throw ret trace reads queries clock interval]. rewrite Hsend.
    cbn [settle throw ret fst snd trace reads queries clock interval].
    rewrite <- !app_assoc. now repeat split.
Qed.

(** ** Whole runs *)

Lemma filter_none {A} (f : A -> bool) (l : list A) :
  (forall x, In x l -> f x = false) -> List.filter f l = [].
Proof.
  induction l as [| x l IH]; intros H; [reflexivity |].
  cbn [List.filter]. rewrite (H x) by now left.
  apply IH. intros y Hy. apply H. now right.
Qed.

Lemma quiet_member pre ev :
  forallb quiet pre = true -> In ev pre ->
  is_watcher ev = false /\ is_poller ev = false.
Proof.
  intros Hall Hin. rewrite forallb_forall in Hall. specialize (Hall ev Hin).
  unfold quiet in Hall. now destruct (is_watcher ev), (is_poller ev).
Qed.

(** X9.  A run sends the transaction at most once, and only when the SDK
    was initialised, quoted a fee and built the transaction: neither the
    watcher nor the poller ever sends anything. *)
Theorem transfer_sent_at_most_once :
  forall fuel ticks w,
    let tr := trace (snd (run fuel ticks w)) in
    (length (List.filter is_send tr) <= 1)%nat /\
    (In EvSendTransaction tr ->
     exists fee tx,
       sdk_init w = inr tt /\ sdk_fee w = inr fee /\
       sdk_transaction w fee = inr tx).
Proof.
  intros fuel ticks w tr. subst tr.
  destruct (run_anatomy fuel ticks w)
    as (pre & n & e & start & poll & -> & _ & Hquiet & Hone & Hsent & Hlate).
  assert (forall ev, In ev (polls 15000 1 n ++ ending_lines e) ->
                     is_send ev = false) as Hwatch.
  { intros ev Hin. apply in_app_or in Hin. destruct Hin as [Hin | Hin].
    - apply in_polls in Hin. now destruct Hin as [-> | [j ->]].
    - apply in_ending_lines in Hin.
      now destruct Hin as [[-> _] | [(x & -> & _) | ->]]. }
  assert (forall ev, In ev (start ++ poll) -> is_send ev = false) as Hpoll.
  { intros ev Hin.
    destruct Hlate as [(_ & -> & ->) | (_ & fee & tx & hash & m & _ & _ & _
                                        & Hstart & -> & _)];
      [contradiction |].
    apply in_app_or in Hin. destruct Hin as [Hin | Hin].
    - destruct Hstart as [-> | [v ->]]; cbn [In] in Hin;
        repeat (destruct Hin as [<- | Hin]; [reflexivity |]); contradiction.
    - apply in_firings in Hin.
      destruct Hin as [(j & _ & ->) | [(x & ->) | [-> | [(st & ->) | [-> | ->]]]]];
        reflexivity. }
  split.
  - do 2 rewrite List.filter_app.
    rewrite (filter_none _ _ Hwatch), (filter_none _ _ Hpoll), app_nil_r.
    exact Hone.
  - intros Hin. apply in_app_or in Hin. destruct Hin as [Hin | Hin]; [auto |].
    apply in_app_or in Hin. destruct Hin as [Hin | Hin].
    + now apply Hwatch in Hin.
    + now apply Hpoll in Hin.
Qed.

(** X10.  The status poller is started exactly in the runs in which the
    watcher returned, be it after a change or after its timeout: the
    interval is armed in a run if and only if the watcher printed its
    timeout line or the value after the update.  The period is always
    5000 ms. *)
Theorem poller_started_iff_watcher_returned :
  forall fuel ticks w,
    let tr := trace (snd (run fuel ticks w)) in
    ((exists ms, In (EvSetInterval ms) tr) <->
     (In LOG_TOO_MUCH_TIME tr \/ exists n, In (LOG_VALUE_AFTER n) tr)) /\
    (forall ms, In (EvSetInterval ms) tr -> ms = 5000).
Proof.
  intros fuel ticks w tr. subst tr.
  destruct (run_anatomy fuel ticks w)
    as (pre & n & e & start & poll & -> & _ & Hquiet & _ & _ & Hlate).
  assert (forall ms, In (EvSetInterval ms)
                       (pre ++ (polls 15000 1 n ++ ending_lines e) ++
                        start ++ poll) ->
                     ms = 5000 /\ returned e = true) as Harmed.
  { intros ms Hin. apply in_app_or in Hin. destruct Hin as [Hin | Hin].
    { now destruct (quiet_member _ _ Hquiet Hin). }
    apply in_app_or in Hin. destruct Hin as [Hin | Hin].
    { apply in_app_or in Hin. destruct Hin as [Hin | Hin].
      - apply in_polls in Hin. destruct Hin as [H | [j H]]; discriminate.
      - apply in_ending_lines in Hin.
        destruct Hin as [[H _] | [(x & H & _) | H]]; discriminate. }
    destruct Hlate as [(_ & -> & ->) | (Hret & fee & tx & hash & m & _ & _ & _
                                        & Hstart & -> & _)];
      [contradiction |].
    split; [| exact Hret].
    apply in_app_or in Hin. destruct Hin as [Hin | Hin].
    - destruct Hstart as [-> | [v ->]]; cbn [In] in Hin;
        repeat (destruct Hin as [Hin | Hin]; [congruence || discriminate |]);
        contradiction.
    - apply in_firings in Hin.
      destruct Hin as [(j & _ & H) | [(x & H) | [H | [(st & H) | [H | H]]]]];
        discriminate. }
  assert (forall ev,
            ev = LOG_TOO_MUCH_TIME \/ (exists x, ev = LOG_VALUE_AFTER x) ->
            In ev (pre ++ (polls 15000 1 n ++ ending_lines e) ++
                   start ++ poll) ->
            returned e = true) as Hline.
  { intros ev Hev Hin. apply in_app_or in Hin. destruct Hin as [Hin | Hin].
    { destruct (quiet_member _ _ Hquiet Hin) as [Hw _].
      now destruct Hev as [-> | [x ->]]. }
    apply in_app_or in Hin. destruct Hin as [Hin | Hin].
    { apply in_app_or in Hin. destruct Hin as [Hin | Hin].
      - apply in_polls in Hin.
        destruct Hev as [-> | [x ->]]; destruct Hin as [H | [j H]];
          discriminate.
      - apply in_ending_lines in Hin.
        destruct Hin as [[_ ->] | [(x & _ & ->) | H]]; try reflexivity.
        destruct Hev as [-> | [x ->]]; discriminate. }
    destruct Hlate as [(_ & -> & ->) | (Hret & _)]; [contradiction |].
    exact Hret. }
  split; [| intros ms Hin; now destruct (Harmed ms Hin)].
  split.
  - intros (ms & Hin). destruct (Harmed ms Hin) as [_ Hret].
    destruct e as [| | | x]; try discriminate.
    + left. apply in_or_app. right. apply in_or_app. left.
      apply in_or_app. right. now left.
    + right. exists x. apply in_or_app. right. apply in_or_app. left.
      apply in_or_app. right. right. now left.
  - intros Hdone.
    assert (returned e = true) as Hret.
    { destruct Hdone as [Hin | (x & Hin)].
      - apply (Hline LOG_TOO_MUCH_TIME); [now left | exact Hin].
      - apply (Hline (LOG_VALUE_AFTER x)); [right; now exists x | exact Hin]. }
    destruct Hlate as [(Hno & _) | (_ & fee & tx & hash & m & _ & _ & _
                                    & Hstart & _)];
      [congruence |].
    exists 5000. apply in_or_app. right. apply in_or_app. right.
    apply in_or_app. left. destruct Hstart as [-> | [v ->]]; now left.
Qed.

(** X11.  Every query of the status API asks for the transaction that was
    sent: its hash is the one [wallet.sendTransaction] returned for the
    transaction the SDK built.  The queries of a run are fewer than the
    firings followed. *)
Theorem status_queries_carry_submitted_hash :
  forall fuel ticks w k hash,
    In (EvGetStatus k hash) (trace (snd (run fuel ticks w))) ->
    (k < ticks)%nat /\
    exists fee tx,
      sdk_fee w = inr fee /\ sdk_transaction w fee = inr tx /\
      send_transaction w tx = inr hash.
Proof.
  intros fuel ticks w k hash Hin.
  destruct (run_anatomy fuel ticks w)
    as (pre & n & e & start & poll & Htr & _ & Hquiet & _ & _ & Hlate).
  rewrite Htr in Hin. apply in_app_or in Hin. destruct Hin as [Hin | Hin].
  { now destruct (quiet_member _ _ Hquiet Hin). }
  apply in_app_or in Hin. destruct Hin as [Hin | Hin].
  { apply in_app_or in Hin. destruct Hin as [Hin | Hin].
    - apply in_polls in Hin. destruct Hin as [H | [j H]]; discriminate.
    - apply in_ending_lines in Hin.
      destruct Hin as [[H _] | [(x & H & _) | H]]; discriminate. }
  destruct Hlate as [(_ & -> & ->) | (_ & fee & tx & h & m & Hfee & Htx & Hsend
                                      & Hstart & -> & Hm)];
    [contradiction |].
  apply in_app_or in Hin. destruct Hin as [Hin | Hin].
  - destruct Hstart as [-> | [v ->]]; cbn [In] in Hin;
      repeat (destruct Hin as [Hin | Hin]; [discriminate |]); contradiction.
  - apply in_firings in Hin.
    destruct Hin as [(j & Hj & H) | [(x & H) | [H | [(st & H) | [H | H]]]]];
      try discriminate.
    injection H as -> ->. split; [lia |]. now exists fee, tx.
Qed.




(** * Concrete runs of the further properties *)


(** Scenario A: the third read of the watcher returns 105. *)
Lemma waitUntilBridged_sees_first_change_witness :
  let out := waitUntilBridged 9 scenarioA 104 None None afterBaseline in
  fst out = Ret tt /\ reads (snd out) = 4%nat /\ clock (snd out) = 45000.
Proof.
  destruct (waitUntilBridged_sees_first_change 9 scenarioA 104 105 None None
              afterBaseline 2) as (H1 & H2 & H3 & _).
  - intros j Hj. destruct j as [| [| j]]; [reflexivity | reflexivity | lia].
  - reflexivity.
  - lia.
  - vm_compute. reflexivity.
  - right. vm_compute. discriminate.
  - lia.
  - now repeat split.
Defined.


(** [PRIVATE_KEY=] in the environment. *)
Lemma empty_private_key_counts_as_missing_witness :
  run 9 6 scenarioEmptyKey =
    (ModuleThrew (Error "Missing environment variable: PRIVATE_KEY"), initial).
Proof.
  apply (proj1 empty_private_key_counts_as_missing 9%nat 6%nat scenarioEmptyKey).
  vm_compute. reflexivity.
Defined.

(** A key the wallet refuses. *)
Lemma wallet_rejection_stops_module_witness :
  fst (run 9 6 scenarioBadKey) = ModuleThrew (Error "invalid private key") /\
  trace (snd (run 9 6 scenarioBadKey)) = loaded scenarioBadKey.
Proof.
  destruct (wallet_rejection_stops_module 9 6 scenarioBadKey "not-a-key"
              (Error "invalid private key")) as (H1 & H2 & _).
  - vm_compute. reflexivity.
  - discriminate.
  - reflexivity.
  - split; [exact H1 | exact H2].
Defined.

(** The fee cannot be quoted; the transaction is refused. *)
Lemma failed_submission_rejects_witness :
  fst (genericMessage 9 scenarioQuoteFails "0xaa" initial) =
    Throw (Error "no fee handler") /\
  fst (genericMessage 9 scenarioSendFails "0xaa" initial) =
    Throw (Error "insufficient funds").
Proof.
  destruct failed_submission_rejects as (Hquote & Hsend). split.
  - destruct (Hquote 9%nat scenarioQuoteFails "0xaa" initial 104
                (Error "no fee handler")) as (H1 & _);
      [reflexivity | reflexivity | reflexivity | exact H1].
  - destruct (Hsend 9%nat scenarioSendFails "0xaa" initial 104 1000 "0xf86b"
                (Error "insufficient funds")) as (H1 & _);
      [reflexivity | reflexivity | reflexivity | reflexivity | reflexivity
      | exact H1].
Defined.

(** The first query of scenario A. *)
Lemma status_queries_carry_submitted_hash_witness :
  In (EvGetStatus 0 "0x251be7fc") (trace (snd (run 9 6 scenarioA))) /\
  exists fee tx,
    sdk_fee scenarioA = inr fee /\ sdk_transaction scenarioA fee = inr tx /\
    send_transaction scenarioA tx = inr "0x251be7fc".
Proof.
  assert (In (EvGetStatus 0 "0x251be7fc") (trace (snd (run 9 6 scenarioA))))
    as Hin.
  { vm_compute. repeat first [left; reflexivity | right]. }
  split; [exact Hin |].
  exact (proj2 (status_queries_carry_submitted_hash 9 6 scenarioA 0
                  "0x251be7fc" Hin)).
Defined.

